(** * kubejob: a shallow embedding of job.go

    The development follows src/job.go.  Kubernetes API objects are
    records carrying the fields job.go reads or writes; Go maps are
    stdpp [gmap]s; the control plane, the exec transport and the log
    streams are explicit inputs (a "world"), and every call the code
    makes to them is recorded in a trace. *)

From stdpp Require Import gmap strings pretty list fin_maps sorting.

Open Scope string_scope.
Open Scope list_scope.

(** ** k8s.io/api/core/v1 and batch/v1, as far as job.go uses them *)

Module core.

(** [PodPhase] is a Go string type. *)
Definition PodPhase := string.
Definition PodPending : PodPhase := "Pending".
Definition PodRunning : PodPhase := "Running".
Definition PodSucceeded : PodPhase := "Succeeded".
Definition PodFailed : PodPhase := "Failed".

Definition RestartPolicy := string.
Definition RestartPolicyNever : RestartPolicy := "Never".

Record Container := mkContainer {
  Name : string;
  Image : string;
  Command : list string;
  Args : list string
}.

(** The zero value a Go map lookup yields for a missing key. *)
Definition zeroContainer : Container := mkContainer "" "" [] [].

Record ContainerStateTerminated := mkTerminated {
  ExitCode : Z;
  Reason : string
}.

(** [State.Terminated] is a pointer: [None] is nil. *)
Record ContainerStatus := mkStatus {
  StatusName : string;
  Terminated : option ContainerStateTerminated
}.

Record PodSpec := mkPodSpec {
  InitContainers : list Container;
  Containers : list Container;
  RestartPolicyOf : RestartPolicy
}.

Record PodStatus := mkPodStatus {
  Phase : PodPhase;
  InitContainerStatuses : list ContainerStatus;
  ContainerStatuses : list ContainerStatus
}.

Record Pod := mkPod {
  PodName : string;
  Namespace : string;
  Spec : PodSpec;
  Status : PodStatus
}.

End core.

Module batch.

(** [Labels] is a Go map that may be nil: [None]. *)
Record PodTemplateSpec := mkTemplate {
  Labels : option (gmap string string);
  TemplateSpec : core.PodSpec
}.

Record Job := mkJob {
  JobName : string;
  Template : PodTemplateSpec
}.

End batch.

(** ** Errors

    [xerrors.Errorf("...: %w", err)] keeps the wrapped error reachable
    for [errors.As]; [xerrors.Errorf(msg)] with no verb keeps only the
    text. *)

Inductive error : Type :=
| ErrExternal (msg : string)
| ErrContextCanceled
| ErrFailedJob (pod : core.Pod)
| ErrWrap (stage : string) (inner : error)
| ErrText (msg : string).

Record FailedJob := mkFailedJob { Pod : core.Pod }.

(** ** FailedJob (job.go:39-85) *)

Definition isErrorStatus (status : core.ContainerStatus) : bool :=
  match core.Terminated status with
  | None => false
  | Some terminated => bool_decide (core.Reason terminated = "Error")
  end.

Fixpoint errorContainerNamesFromStatuses
    (containerStatuses : list core.ContainerStatus) : list string :=
  match containerStatuses with
  | [] => []
  | status :: rest =>
      match core.Terminated status with
      | None => errorContainerNamesFromStatuses rest
      | Some terminated =>
          if bool_decide (core.Reason terminated = "Error")
          then core.StatusName status :: errorContainerNamesFromStatuses rest
          else errorContainerNamesFromStatuses rest
      end
  end.

Definition FailedContainerNames (j : FailedJob) : list string :=
  ([] ++ errorContainerNamesFromStatuses
           (core.InitContainerStatuses (core.Status (Pod j))))
  ++ errorContainerNamesFromStatuses
       (core.ContainerStatuses (core.Status (Pod j))).

(** The two loops that fill [nameToContainerMap]: a later container
    overwrites an earlier one of the same name. *)
Definition addContainers (m : gmap string core.Container)
    (cs : list core.Container) : gmap string core.Container :=
  foldl (fun acc container => <[core.Name container := container]> acc) m cs.

Definition nameToContainerMap (j : FailedJob) : gmap string core.Container :=
  addContainers
    (addContainers ∅ (core.InitContainers (core.Spec (Pod j))))
    (core.Containers (core.Spec (Pod j))).

Definition FailedContainers (j : FailedJob) : list core.Container :=
  map (fun name => default core.zeroContainer (nameToContainerMap j !! name))
      (FailedContainerNames j).

Definition FailedJob_Error (j : FailedJob) : string := "failed to job".

(** [err.Error()] and [errors.As(err, &failedJob)]. *)
Fixpoint Error (e : error) : string :=
  match e with
  | ErrExternal msg => msg
  | ErrContextCanceled => "context canceled"
  | ErrFailedJob pod => FailedJob_Error (mkFailedJob pod)
  | ErrWrap stage inner => stage +:+ ": " +:+ Error inner
  | ErrText msg => msg
  end.

Fixpoint asFailedJob (e : error) : option FailedJob :=
  match e with
  | ErrFailedJob pod => Some (mkFailedJob pod)
  | ErrWrap _ inner => asFailedJob inner
  | _ => None
  end.

Fixpoint isContextCanceled (e : error) : bool :=
  match e with
  | ErrContextCanceled => true
  | ErrWrap _ inner => isContextCanceled inner
  | _ => false
  end.

(** ** strings.Join, fmt.Sprint on the ints the code prints, strings.Contains *)

Fixpoint Join (elems : list string) (sep : string) : string :=
  match elems with
  | [] => ""
  | [x] => x
  | x :: rest => x +:+ sep +:+ Join rest sep
  end.

Definition Sprint (status : nat) : string := pretty status.

Fixpoint HasPrefix (s prefix : string) : bool :=
  match prefix, s with
  | EmptyString, _ => true
  | String p prefix', String c s' => bool_decide (p = c) && HasPrefix s' prefix'
  | String _ _, EmptyString => false
  end.

Fixpoint Contains (s substr : string) : bool :=
  HasPrefix s substr ||
  match s with
  | EmptyString => false
  | String _ s' => Contains s' substr
  end.

(** ** rest.Config

    job.go hands the configuration to two library constructors that can
    fail; the configuration is modelled by what they answer. *)

Record Config := mkConfig {
  NewForConfig_error : option error;
  RoundTripperFor_error : option error
}.

(** ** Job and JobBuilder (job.go:87-235)

    A callback is caller code: the model keeps the error it returns
    and whether it cancels the context of the run. *)

Record CallbackResult := mkCallbackResult {
  callbackError : option error;
  callbackCancels : bool
}.

Record Job := mkKubeJob {
  job : batch.Job;
  config : Config;
  disabledInitContainerLog : bool;
  disabledInitCommandLog : bool;
  disabledContainerLog : bool;
  disabledCommandLog : bool;
  loggerSet : bool;
  podRunningCallback : option (core.Pod -> CallbackResult)
}.

Record JobBuilder := mkJobBuilder {
  builderConfig : Config;
  namespace : string;
  image : string;
  command : list string
}.

Definition NewJobBuilder (config : Config) (namespace : string) : JobBuilder :=
  mkJobBuilder config namespace "" [].

Definition SetImage (b : JobBuilder) (image : string) : JobBuilder :=
  mkJobBuilder (builderConfig b) (namespace b) image (command b).

Definition SetCommand (b : JobBuilder) (cmd : list string) : JobBuilder :=
  mkJobBuilder (builderConfig b) (namespace b) (image b) cmd.

Definition setContainerName (c : core.Container) (name : string) : core.Container :=
  core.mkContainer name (core.Image c) (core.Command c) (core.Args c).

Definition setLabel (labels : option (gmap string string)) (k v : string)
    : option (gmap string string) :=
  Some (<[k := v]> (default ∅ labels)).

(** [sort.Strings]: byte-wise lexicographic order. *)
Definition stringLe (a b : string) : Prop := String.leb a b = true.

Global Instance stringLe_dec a b : Decision (stringLe a b) :=
  decide (String.leb a b = true).

Definition sortStrings (keys : list string) : list string :=
  merge_sort stringLe keys.

Definition labelSelectors (labels : option (gmap string string)) : list string :=
  let m := default ∅ labels in
  let keys := sortStrings (elements (dom m)) in
  map (fun k => k +:+ "=" +:+ default "" (m !! k)) keys.

Definition labelSelector (j : Job) : string :=
  Join (labelSelectors (batch.Labels (batch.Template (job j)))) ",".

Section Builder.

(** [xid_New n] is the identifier the [n]-th call of [xid.New()] in
    this process returns; the builder threads the call counter. *)
Variable xid_New : nat -> string.

Definition generateName (name : string) (n : nat) : string * nat :=
  (name +:+ "-" +:+ xid_New n, S n).

Definition jobName := generateName "kubejob".
Definition containerName := generateName "kubejob-container".
Definition labelName := generateName "kubejob-label".

(** The loop of job.go:174-178. *)
Fixpoint nameContainers (containers : list core.Container) (n : nat)
    : list core.Container * nat :=
  match containers with
  | [] => ([], n)
  | c :: rest =>
      if bool_decide (core.Name c = "")
      then let '(name, n1) := containerName n in
           let '(rest', n2) := nameContainers rest n1 in
           (setContainerName c name :: rest', n2)
      else let '(rest', n1) := nameContainers rest n in
           (c :: rest', n1)
  end.

Definition BuildWithJob (b : JobBuilder) (jobSpec : batch.Job) (n : nat)
    : (Job + error) * nat :=
  match NewForConfig_error (builderConfig b) with
  | Some err => (inr (ErrWrap "failed to create clientset" err), n)
  | None =>
      let '(name, n1) :=
        if bool_decide (batch.JobName jobSpec = "")
        then jobName n else (batch.JobName jobSpec, n) in
      let spec := batch.TemplateSpec (batch.Template jobSpec) in
      let policy :=
        if bool_decide (core.RestartPolicyOf spec = "")
        then core.RestartPolicyNever else core.RestartPolicyOf spec in
      let '(containers, n2) := nameContainers (core.Containers spec) n1 in
      let '(label, n3) := labelName n2 in
      let labels := setLabel (batch.Labels (batch.Template jobSpec)) label label in
      (inl (mkKubeJob
              (batch.mkJob name
                 (batch.mkTemplate labels
                    (core.mkPodSpec (core.InitContainers spec) containers policy)))
              (builderConfig b) false false false false false None),
       n3)
  end.

Definition Build (b : JobBuilder) (n : nat) : (Job + error) * nat :=
  if bool_decide (image b = "")
  then (inr (ErrText "could not find container.image name"), n)
  else
    let '(name, n1) := jobName n in
    let '(cname, n2) := containerName n1 in
    BuildWithJob b
      (batch.mkJob name
         (batch.mkTemplate None
            (core.mkPodSpec []
               [core.mkContainer cname (image b) (command b) []]
               core.RestartPolicyNever)))
      n2.

(** [decode] stands for [yaml.NewYAMLOrJSONDecoder(r, 1024).Decode]. *)
Definition BuildWithReader (decode : string -> batch.Job + error)
    (b : JobBuilder) (r : string) (n : nat) : (Job + error) * nat :=
  match decode r with
  | inr err => (inr (ErrWrap "failed to decode YAML" err), n)
  | inl jobSpec => BuildWithJob b jobSpec n
  end.

End Builder.

(** ** The process and the exec transport

    Everything the process does that can be observed from outside is
    appended to a trace, in program order.  Elapsed times are real-time
    values: the trace keeps the label of each timing line only. *)

Record ExecRequest := mkExecRequest {
  reqNamespace : string;
  reqPodName : string;
  reqContainer : string;
  reqCommand : list string;
  reqStdin : bool;
  reqStdout : bool;
  reqStderr : bool
}.

Inductive Event : Type :=
| EvExec (req : ExecRequest)
| EvStdout (p : string)
| EvStderr (p : string)
| EvPrintln (line : string)
| EvTiming (label : string)
| EvLogPrint (msg : string).

(** Where a remote stream is copied to. *)
Inductive Writer : Type := OsStdout | OsStderr | Buf.

Record StreamOptions := mkStreamOptions {
  optStdout : Writer;
  optStderr : Writer;
  optTty : bool
}.

Inductive Chunk : Type :=
| StdoutChunk (p : string)
| StderrChunk (p : string).

(** What the API server and the container answer to one exec request:
    [http.NewRequest] and [spdy.Negotiate] may fail; otherwise the
    server names a protocol and the remote streams arrive as chunks,
    followed by the streamer's error, if any. *)
Record ExecResponse := mkExecResponse {
  requestError : option error;
  negotiateError : option error;
  protocol : string;
  chunks : list Chunk;
  streamError : option error
}.

(** The transport answers a request knowing what happened before. *)
Definition Transport := list Event -> ExecRequest -> ExecResponse.

Record Proc := mkProc {
  trace : list Event;
  buffer : string
}.

Definition emit (ev : Event) (st : Proc) : Proc :=
  mkProc (trace st ++ [ev]) (buffer st).

(** [newBuffer], [buffer.Write], [buffer.Bytes]. *)
Definition newBuffer (st : Proc) : Proc := mkProc (trace st) "".
Definition bufferWrite (p : string) (st : Proc) : Proc :=
  mkProc (trace st) (buffer st +:+ p).
Definition bufferBytes (st : Proc) : string := buffer st.

Definition write (w : Writer) (p : string) (st : Proc) : Proc :=
  match w with
  | OsStdout => emit (EvStdout p) st
  | OsStderr => emit (EvStderr p) st
  | Buf => bufferWrite p st
  end.

Definition copyChunk (options : StreamOptions) (st : Proc) (c : Chunk) : Proc :=
  match c with
  | StdoutChunk p => write (optStdout options) p st
  | StderrChunk p => write (optStderr options) p st
  end.

(** A call either returns or panics (a nil dereference); a goroutine
    can also stay blocked for ever. *)
Inductive outcome (A : Type) : Type :=
| Returned (a : A)
| Panicked
| Blocked.
Arguments Returned {A} a.
Arguments Panicked {A}.
Arguments Blocked {A}.

(** k8s.io/apimachinery/pkg/util/remotecommand protocol names. *)
Definition StreamProtocolV1Name := "channel.k8s.io".
Definition StreamProtocolV2Name := "v2.channel.k8s.io".
Definition StreamProtocolV3Name := "v3.channel.k8s.io".
Definition StreamProtocolV4Name := "v4.channel.k8s.io".

Inductive streamProtocolHandler : Type := V1 | V2 | V3 | V4.

(** The [switch protocol] of job.go:351-363; it has no default case, so
    an unknown protocol leaves [streamer] nil. *)
Definition selectStreamer (protocol : string) : option streamProtocolHandler :=
  if bool_decide (protocol = StreamProtocolV4Name) then Some V4
  else if bool_decide (protocol = StreamProtocolV3Name) then Some V3
  else if bool_decide (protocol = StreamProtocolV2Name) then Some V2
  else if bool_decide (protocol = "") then Some V1
  else if bool_decide (protocol = StreamProtocolV1Name) then Some V1
  else None.

Record JobExecutor := mkJobExecutor {
  Container : core.Container;
  pod : option core.Pod;
  execCommand : list string;
  execArgs : list string;
  execDisabledContainerLog : bool;
  execDisabledCommandLog : bool;
  protocols : list string
}.

Section Exec.

Variable transport : Transport.

(** job.go:330-369. *)
Definition stream (req : ExecRequest) (options : StreamOptions) (st : Proc)
    : outcome (option error) * Proc :=
  let resp := transport (trace st) req in
  match requestError resp with
  | Some err =>
      (Returned (Some (ErrText ("error creating request: " +:+ Error err))), st)
  | None =>
      match negotiateError resp with
      | Some err => (Returned (Some err), st)
      | None =>
          let st1 := emit (EvTiming "negotiate time = ") st in
          match selectStreamer (protocol resp) with
          | None => (Panicked, st1)
          | Some _ =>
              let st2 := foldl (copyChunk options) st1 (chunks resp) in
              (Returned (streamError resp), emit (EvTiming "stream time = ") st2)
          end
      end
  end.

(** job.go:274-308.  The remote streams go to [os.Stdout] and
    [os.Stderr]; [buf] is created and returned. *)
Definition exec (e : JobExecutor) (cmd : list string) (st : Proc)
    : outcome (string * option error) * Proc :=
  match pod e with
  | None => (Panicked, st)
  | Some pod =>
      let req := mkExecRequest (core.Namespace pod) (core.PodName pod)
                   (core.Name (Container e))
                   ["sh"; "-c"; Join cmd " "] false true true in
      let st0 := newBuffer (emit (EvExec req) st) in
      match stream req (mkStreamOptions OsStdout OsStderr false) st0 with
      | (Returned (Some err), st1) =>
          let st2 := emit (EvTiming "exec time = ") st1 in
          (Returned (bufferBytes st2,
                     Some (ErrWrap "faield to exec command" err)), st2)
      | (Returned None, st1) =>
          let st2 := emit (EvTiming "exec time = ") st1 in
          (Returned (bufferBytes st2, None), st2)
      | (Panicked, st1) => (Panicked, st1)
      | (Blocked, st1) => (Blocked, st1)
      end
  end.

Definition handshakeCommand (status : nat) : list string :=
  ["echo"; Sprint status; ">"; "/tmp/kubejob-status"].

(** job.go:371-392. *)
Definition Exec (e : JobExecutor) (st : Proc)
    : outcome (string * option error) * Proc :=
  let st0 :=
    if negb (execDisabledCommandLog e)
    then emit (EvPrintln (Join (execCommand e ++ execArgs e) " ")) st
    else st in
  match exec e (execCommand e ++ execArgs e) st0 with
  | (Returned (out, err), st1) =>
      let st2 := emit (EvTiming "command time = ") st1 in
      let status := match err with Some _ => 1 | None => 0 end in
      let errTest :=
        match err, pod e with
        | Some _, Some pod => Some (ErrFailedJob pod)
        | _, _ => None
        end in
      match exec e (handshakeCommand status) st2 with
      | (Returned (_, err2), st3) =>
          let st4 :=
            match err2 with
            | Some err => emit (EvLogPrint ("failed to send test status: " +:+ Error err)) st3
            | None => st3
            end in
          (Returned (out, errTest), emit (EvTiming "send test status time = ") st4)
      | (Panicked, st3) => (Panicked, st3)
      | (Blocked, st3) => (Blocked, st3)
      end
  | (Panicked, st1) => (Panicked, st1)
  | (Blocked, st1) => (Blocked, st1)
  end.

End Exec.

(** ** Log streaming (job.go:585-714) *)

Record ContainerLog := mkContainerLog {
  logPod : core.Pod;
  logContainer : core.Container;
  Log : string;
  IsFinished : bool
}.

(** The error of one [reader.ReadString]: nil, [io.EOF], or another. *)
Inductive readError : Type :=
| ReadOk
| ReadEOF
| ReadFailed (err : error).

Record ReadResult := mkRead {
  line : string;
  readErr : readError
}.

(** One container's log stream: whether opening it fails, the results
    of the successive [ReadString] calls that return (a later call does
    not return), and which case the [select] takes when the context is
    done and [errchan] holds a value. *)
Record LogStream := mkLogStream {
  openError : option error;
  reads : list ReadResult;
  doneFirst : bool
}.

Definition enabledInitCommandLog (j : Job) : bool :=
  if disabledInitContainerLog j then false
  else if disabledInitCommandLog j then false
  else true.

Definition enabledCommandLog (j : Job) : bool :=
  if disabledContainerLog j then false
  else if disabledCommandLog j then false
  else true.

Definition commandLog (pod : core.Pod) (container : core.Container) : ContainerLog :=
  let cmd := ([] ++ core.Command container) ++ core.Args container in
  mkContainerLog pod container (Join cmd " " +:+ "
") false.

Definition finishedLog (pod : core.Pod) (container : core.Container) : ContainerLog :=
  mkContainerLog pod container "" true.

(** The goroutine of job.go:673-699.  Its [for] has no exit: it goes
    on until a send on [errchan] cannot complete.  [sends] is the number
    of sends on [errchan] that can still complete (the channel buffers
    one value, and the [select] takes at most one).  The result is what
    is sent on [j.containerLogs] and on [errchan], in order. *)
Fixpoint readerLoop (pod : core.Pod) (container : core.Container)
    (enabledLog : bool) (sends : nat) (rs : list ReadResult)
    : list ContainerLog * list (option error) :=
  match rs with
  | [] => ([], [])
  | r :: rest =>
      match readErr r with
      | ReadFailed err =>
          match sends with
          | 0 => ([], [])
          | S sends' =>
              let '(logs, sent) := readerLoop pod container enabledLog sends' rest in
              (logs, Some err :: sent)
          end
      | ReadOk =>
          let '(logs, sent) := readerLoop pod container enabledLog sends rest in
          (if enabledLog
           then mkContainerLog pod container (line r) false :: logs
           else logs, sent)
      | ReadEOF =>
          match sends with
          | 0 => ([finishedLog pod container], [])
          | S sends' =>
              let '(logs, sent) := readerLoop pod container enabledLog sends' rest in
              (finishedLog pod container :: logs, None :: sent)
          end
      end
  end.

(** job.go:652-714: the result of the call and everything sent on
    [j.containerLogs] for this container. *)
Definition logStreamContainer (ctxDone : bool) (s : LogStream)
    (pod : core.Pod) (container : core.Container)
    (enabledCommandLog enabledLog : bool)
    : outcome (option error) * list ContainerLog :=
  match openError s with
  | Some err => (Returned (Some (ErrWrap "failed to create log stream" err)), [])
  | None =>
      let cmdLog := if enabledCommandLog then [commandLog pod container] else [] in
      let first := head (snd (readerLoop pod container enabledLog 1 (reads s))) in
      if ctxDone && (doneFirst s || bool_decide (first = None))
      then (Returned (Some (ErrWrap "context error" ErrContextCanceled)),
            cmdLog ++ fst (readerLoop pod container enabledLog 1 (reads s)))
      else
        match first with
        | None =>
            (Blocked, cmdLog ++ fst (readerLoop pod container enabledLog 1 (reads s)))
        | Some None =>
            (Returned None,
             cmdLog ++ fst (readerLoop pod container enabledLog 2 (reads s)))
        | Some (Some err) =>
            (Returned (Some (ErrWrap "failed to log stream" err)),
             cmdLog ++ fst (readerLoop pod container enabledLog 2 (reads s)))
        end
  end.

(** [errgroup.Group.Wait]: waits for every goroutine and returns the
    first non-nil error; [results] is in the order the goroutines
    finish. *)
Fixpoint firstError (results : list (outcome (option error))) : option error :=
  match results with
  | [] => None
  | Returned (Some err) :: _ => Some err
  | _ :: rest => firstError rest
  end.

Definition isReturned {A} (o : outcome A) : bool :=
  match o with Returned _ => true | _ => false end.

Definition isPanicked {A} (o : outcome A) : bool :=
  match o with Panicked => true | _ => false end.

Definition egWait (results : list (outcome (option error))) : outcome (option error) :=
  if existsb isPanicked results then Panicked
  else if forallb isReturned results then Returned (firstError results)
  else Blocked.

Definition wrap (stage : string) (o : outcome (option error)) : outcome (option error) :=
  match o with
  | Returned (Some err) => Returned (Some (ErrWrap stage err))
  | other => other
  end.

Definition ContainerLogs := list (core.Container * list ContainerLog).

Section LogStreamPod.

Variable j : Job.
Variable ctxDone : bool.
Variable openLog : core.Pod -> core.Container -> LogStream.
Variable pod : core.Pod.

(** The init containers are tailed one after the other. *)
Fixpoint logStreamInitContainers (containers : list core.Container)
    : outcome (option error) * ContainerLogs :=
  match containers with
  | [] => (Returned None, [])
  | container :: rest =>
      match logStreamContainer ctxDone (openLog pod container) pod container
              (enabledInitCommandLog j) (negb (disabledInitContainerLog j)) with
      | (Returned None, logs) =>
          let '(r, ls) := logStreamInitContainers rest in
          (r, (container, logs) :: ls)
      | (r, logs) => (wrap "failed to log stream container" r, [(container, logs)])
      end
  end.

(** The containers are tailed concurrently; the tailers are taken to
    finish in the order of the pod spec. *)
Definition logStreamContainers (containers : list core.Container)
    : list (outcome (option error) * list ContainerLog) :=
  map (fun container =>
         let '(r, logs) :=
           logStreamContainer ctxDone (openLog pod container) pod container
             (enabledCommandLog j) (negb (disabledContainerLog j)) in
         (wrap "failed to log stream container" r, logs))
      containers.

Definition logStreamPod : outcome (option error) * ContainerLogs :=
  match logStreamInitContainers (core.InitContainers (core.Spec pod)) with
  | (Returned None, initLogs) =>
      let rs := logStreamContainers (core.Containers (core.Spec pod)) in
      (wrap "failed to wait" (egWait (map fst rs)),
       initLogs ++ zip (core.Containers (core.Spec pod)) (map snd rs))
  | (r, initLogs) => (r, initLogs)
  end.

End LogStreamPod.

(** ** The control plane

    The orchestrator is an input: what each API call answers, the pods
    the watch delivers until its result channel is closed, the log
    streams, and whether the log goroutine of [watchLoop] finishes
    before the watch goroutine.  Beside it stands the formatting
    library: [errorfText format] is the text of the error that
    [xerrors.Errorf(format)] makes of a format string that comes without
    operands.  The library prints a format without a '%' as it is; what
    it makes of a '%' is its own business and is left open here. *)

Record Cluster := mkCluster {
  createJob : batch.Job -> option error;
  deleteJob : string -> option error;
  listPods : string -> option (list core.Pod);
  deletePod : string -> option error;
  watchPods : string -> list core.Pod + error;
  openLog : core.Pod -> core.Container -> LogStream;
  logFirst : bool;
  errorfText : string -> string
}.

(** A text without a '%'. *)
Definition percentFree (s : string) : Prop := Contains s "%" = false.

(** The formatting library on the texts of the samples, none of which
    holds a '%'. *)
Definition verbatim (format : string) : string := format.

(** The calls a run makes, in program order. *)
Inductive Op : Type :=
| OpCreate (jobSpec : batch.Job)
| OpWatch (selector : string)
| OpCallback (pod : core.Pod)
| OpLogStreamPod (pod : core.Pod)
| OpWatchStop
| OpDeleteJob (name : string)
| OpListPods (selector : string)
| OpDeletePod (name : string).

(** ** watchLoop (job.go:528-583) *)

Record WatchState := mkWatchState {
  phase : core.PodPhase;
  onceDone : bool;
  ctxDone : bool;
  ops : list Op
}.

Definition record (op : Op) (ws : WatchState) : WatchState :=
  mkWatchState (phase ws) (onceDone ws) (ctxDone ws) (ops ws ++ [op]).

Definition setPhase (p : core.PodPhase) (ws : WatchState) : WatchState :=
  mkWatchState p (onceDone ws) (ctxDone ws) (ops ws).

(** [once.Do] on a Running event: the callback, then the log goroutine. *)
Definition onceRunning (j : Job) (pod : core.Pod) (ws : WatchState)
    : option error * WatchState :=
  if onceDone ws then (None, ws)
  else
    let '(callbackErr, ws1) :=
      match podRunningCallback j with
      | Some callback =>
          let r := callback pod in
          (callbackError r,
           mkWatchState (phase ws) true (ctxDone ws || callbackCancels r)
             (ops ws ++ [OpCallback pod]))
      | None => (None, mkWatchState (phase ws) true (ctxDone ws) (ops ws))
      end in
    (callbackErr, record (OpLogStreamPod pod) ws1).

(** [once.Do] on a Succeeded or Failed event: the log goroutine only. *)
Definition onceTerminal (pod : core.Pod) (ws : WatchState) : WatchState :=
  if onceDone ws then ws
  else mkWatchState (phase ws) true (ctxDone ws) (ops ws ++ [OpLogStreamPod pod]).

(** The watch goroutine: one iteration per delivered pod. *)
Fixpoint watchEvents (j : Job) (events : list core.Pod) (ws : WatchState)
    : option error * WatchState :=
  match events with
  | [] => (None, ws)
  | pod :: rest =>
      if ctxDone ws
      then (Some (ErrWrap "context error" ErrContextCanceled), ws)
      else if bool_decide (core.Phase (core.Status pod) = phase ws)
      then watchEvents j rest ws
      else if bool_decide (core.Phase (core.Status pod) = core.PodRunning)
      then
        match onceRunning j pod ws with
        | (Some callbackErr, ws1) =>
            (Some (ErrWrap "failed to callback for pod running" callbackErr), ws1)
        | (None, ws1) =>
            watchEvents j rest (setPhase (core.Phase (core.Status pod)) ws1)
        end
      else if bool_decide (core.Phase (core.Status pod) = core.PodSucceeded)
              || bool_decide (core.Phase (core.Status pod) = core.PodFailed)
      then
        let ws1 := onceTerminal pod ws in
        if bool_decide (core.Phase (core.Status pod) = core.PodFailed)
        then (Some (ErrFailedJob pod), ws1)
        else (None, ws1)
      else watchEvents j rest (setPhase (core.Phase (core.Status pod)) ws)
  end.

(** The pod handed to [logStreamPod], if the once-only guard fired. *)
Fixpoint streamedPod (l : list Op) : option core.Pod :=
  match l with
  | [] => None
  | OpLogStreamPod pod :: _ => Some pod
  | _ :: rest => streamedPod rest
  end.

Definition watchLoop (j : Job) (w : Cluster) (ctx : bool) (events : list core.Pod)
    : outcome (option error) * list Op * ContainerLogs :=
  let '(r, ws) := watchEvents j events (mkWatchState "" false ctx []) in
  match streamedPod (ops ws) with
  | None =>
      (wrap "failed to wait in watchLoop" (egWait [Returned r]), ops ws, [])
  | Some pod =>
      let '(lr, logs) := logStreamPod j (ctxDone ws) (openLog w) pod in
      let lr' := wrap "failed to log stream pod" lr in
      (wrap "failed to wait in watchLoop"
         (egWait (if logFirst w then [lr'; Returned r] else [Returned r; lr'])),
       ops ws, logs)
  end.

(** job.go:498-512. *)
Definition wait (j : Job) (w : Cluster) (ctx : bool)
    : outcome (option error) * list Op * ContainerLogs :=
  match watchPods w (labelSelector j) with
  | inr err =>
      (Returned (Some (ErrWrap "failed to start watch pod" err)),
       [OpWatch (labelSelector j)], [])
  | inl events =>
      let '(r, l, logs) := watchLoop j w ctx events in
      (wrap "failed to watching" r, OpWatch (labelSelector j) :: l ++ [OpWatchStop], logs)
  end.

(** ** Run (job.go:451-496) *)

(** The loop of the deferred function over [podList.Items].  A failed
    deletion that meets an earlier error is joined to it by
    [xerrors.Errorf(strings.Join(...))]: the joined text is the format
    string. *)
Fixpoint deletePods (w : Cluster) (items : list core.Pod) (e : option error)
    : option error * list Op :=
  match items with
  | [] => (e, [])
  | pod :: rest =>
      let e1 :=
        match deletePod w (core.PodName pod) with
        | Some err =>
            let err' := ErrWrap "failed to delete pod" err in
            match e with
            | None => Some err'
            | Some e0 =>
                Some (ErrText (errorfText w (Join [Error e0; Error err'] "
")))
            end
        | None => e
        end in
      let '(e2, l) := deletePods w rest e1 in
      (e2, OpDeletePod (core.PodName pod) :: l)
  end.

(** The deferred function: [e] is the named result on entry. *)
Definition cleanup (j : Job) (w : Cluster) (e : option error)
    : option error * list Op :=
  let e1 :=
    match deleteJob w (batch.JobName (job j)) with
    | Some err => Some (ErrWrap "failed to delete job" err)
    | None => e
    end in
  let pre := [OpDeleteJob (batch.JobName (job j)); OpListPods (labelSelector j)] in
  match listPods w (labelSelector j) with
  | None => (e1, pre)
  | Some items =>
      let '(e2, l) := deletePods w items e1 in
      (e2, pre ++ l)
  end.

(** What the goroutine reading [j.containerLogs] does with one event. *)
Inductive LogSink : Type :=
| ToLogger (containerLog : ContainerLog)
| ToStderr (text : string)
| Dropped.

Definition consumeLog (j : Job) (containerLog : ContainerLog) : LogSink :=
  if loggerSet j then ToLogger containerLog
  else if negb (IsFinished containerLog) then ToStderr (Log containerLog)
  else Dropped.

Definition Run (j : Job) (w : Cluster) (ctx : bool)
    : outcome (option error) * list Op * ContainerLogs :=
  match createJob w (job j) with
  | Some err =>
      (Returned (Some (ErrWrap "failed to create job" err)), [OpCreate (job j)], [])
  | None =>
      match wait j w ctx with
      | (Returned r, l, logs) =>
          let e :=
            match r with
            | Some err => Some (ErrWrap "failed to wait" err)
            | None => None
            end in
          let '(e', cl) := cleanup j w e in
          (Returned e', OpCreate (job j) :: l ++ cl, logs)
      | (other, l, logs) => (other, OpCreate (job j) :: l, logs)
      end
  end.

(** ** RunWithExecutionHandler (job.go:394-449) *)

Definition jobCommandTemplate : string := "
while [ ! -f /tmp/kubejob-status ]
do
    sleep 1;
done

exit $(cat /tmp/kubejob-status)
".

Definition JobExecutionHandler := list JobExecutor -> CallbackResult.

Definition newExecutor (j : Job) (container : core.Container) : JobExecutor :=
  mkJobExecutor container None (core.Command container) (core.Args container)
    (disabledContainerLog j) (disabledCommandLog j)
    [StreamProtocolV4Name; StreamProtocolV3Name;
     StreamProtocolV2Name; StreamProtocolV1Name].

Definition wrapCommand (container : core.Container) : core.Container :=
  core.mkContainer (core.Name container) (core.Image container)
    ["sh"] ["-c"; jobCommandTemplate].

(** The loop of job.go:411-434: one executor per container, and the
    container's command overwritten in the job spec. *)
Fixpoint wrapContainers (j : Job) (containers : list core.Container)
    : list JobExecutor * list core.Container :=
  match containers with
  | [] => ([], [])
  | container :: rest =>
      let '(executors, rest') := wrapContainers j rest in
      (newExecutor j container :: executors, wrapCommand container :: rest')
  end.

Definition setContainers (jobSpec : batch.Job) (containers : list core.Container)
    : batch.Job :=
  let template := batch.Template jobSpec in
  let spec := batch.TemplateSpec template in
  batch.mkJob (batch.JobName jobSpec)
    (batch.mkTemplate (batch.Labels template)
       (core.mkPodSpec (core.InitContainers spec) containers
          (core.RestartPolicyOf spec))).

Definition setPod (pod : core.Pod) (e : JobExecutor) : JobExecutor :=
  mkJobExecutor (Container e) (Some pod) (execCommand e) (execArgs e)
    (execDisabledContainerLog e) (execDisabledCommandLog e) (protocols e).

Definition handlerCallback (handler : JobExecutionHandler)
    (executors : list JobExecutor) (pod : core.Pod) : CallbackResult :=
  let r := handler (map (setPod pod) executors) in
  mkCallbackResult
    (match callbackError r with
     | Some err => Some (ErrWrap "failed to handle executors" err)
     | None => None
     end)
    (callbackCancels r).

(** The job as [Run] receives it from [RunWithExecutionHandler]. *)
Definition prepareJob (j : Job) (handler : JobExecutionHandler)
    : list JobExecutor * Job :=
  let '(executors, containers) :=
    wrapContainers j (core.Containers (batch.TemplateSpec (batch.Template (job j)))) in
  (executors,
   mkKubeJob (setContainers (job j) containers) (config j)
     (disabledInitContainerLog j) (disabledInitCommandLog j)
     (disabledContainerLog j) true (loggerSet j)
     (Some (handlerCallback handler executors))).

Definition RunWithExecutionHandler (j : Job) (w : Cluster) (ctx : bool)
    (handler : JobExecutionHandler)
    : outcome (option error) * list Op * ContainerLogs :=
  match RoundTripperFor_error (config j) with
  | Some err => (Returned (Some (ErrWrap "failed to RoundTripperFor" err)), [], [])
  | None =>
      let '(r, l, logs) := Run (prepareJob j handler).2 w ctx in
      (wrap "failed to run job" r, l, logs)
  end.

(** ** Vocabulary of the statements *)

Definition specContainers (p : core.Pod) : list core.Container :=
  core.InitContainers (core.Spec p) ++ core.Containers (core.Spec p).

Definition podStatuses (p : core.Pod) : list core.ContainerStatus :=
  core.InitContainerStatuses (core.Status p) ++ core.ContainerStatuses (core.Status p).

(** A status that is terminated with reason "Error". *)
Definition terminatedWithError (s : core.ContainerStatus) : Prop :=
  ∃ t, core.Terminated s = Some t ∧ core.Reason t = "Error".

(** ** Sample inputs *)

Definition testContainer : core.Container :=
  core.mkContainer "test" "golang:1.17-stretch" ["cat"; "missingfile"] [].

Definition sidecarContainer : core.Container :=
  core.mkContainer "sidecar" "nginx:latest" ["nginx"] [].

Definition initContainer : core.Container :=
  core.mkContainer "init" "golang:1.17-stretch" ["echo"; "hello"] [].

Definition sampleSpec : core.PodSpec :=
  core.mkPodSpec [initContainer] [testContainer; sidecarContainer]
    core.RestartPolicyNever.

(** The pod once "test" has exited 1, "init" has exited 0 and
    "sidecar" still runs. *)
Definition failedPod : core.Pod :=
  core.mkPod "kubejob-pod" "default" sampleSpec
    (core.mkPodStatus core.PodFailed
       [core.mkStatus "init" (Some (core.mkTerminated 0 "Completed"))]
       [core.mkStatus "test" (Some (core.mkTerminated 1 "Error"));
        core.mkStatus "sidecar" None]).

(** The exec requests of a trace, in order. *)
Definition execRequests (tr : list Event) : list ExecRequest :=
  omap (λ ev, match ev with EvExec req => Some req | _ => None end) tr.

(** The request [exec] builds for a command line. *)
Definition execRequest (p : core.Pod) (e : JobExecutor) (cmd : list string)
    : ExecRequest :=
  mkExecRequest (core.Namespace p) (core.PodName p) (core.Name (Container e))
    ["sh"; "-c"; Join cmd " "] false true true.

(** A server that, when request and negotiation succeed, names one of
    the protocols the [switch] of [stream] knows. *)
Definition negotiatesKnownProtocol (transport : Transport) : Prop :=
  ∀ tr req,
    requestError (transport tr req) = None →
    negotiateError (transport tr req) = None →
    is_Some (selectStreamer (protocol (transport tr req))).

(** The pod while "test" runs: nothing is terminated yet. *)
Definition runningPod : core.Pod :=
  core.mkPod "kubejob-pod" "default"
    (core.mkPodSpec [] [testContainer] core.RestartPolicyNever)
    (core.mkPodStatus core.PodRunning [] [core.mkStatus "test" None]).

Definition testExecutor : JobExecutor :=
  mkJobExecutor testContainer (Some runningPod) ["cat"; "missingfile"] []
    false false
    [StreamProtocolV4Name; StreamProtocolV3Name;
     StreamProtocolV2Name; StreamProtocolV1Name].

Definition catMessage : string := "cat: missingfile: No such file or directory
".

(** A container in which [cat missingfile] writes its message to
    stderr and exits 1, and the handshake write succeeds. *)
Definition catTransport : Transport :=
  λ _ req,
    if bool_decide (reqCommand req = ["sh"; "-c"; "cat missingfile"])
    then mkExecResponse None None StreamProtocolV4Name [StderrChunk catMessage]
           (Some (ErrExternal "command terminated with exit code 1"))
    else mkExecResponse None None StreamProtocolV4Name [] None.

(** The same container when the handshake write fails. *)
Definition catTransportNoHandshake : Transport :=
  λ _ req,
    if bool_decide (reqCommand req = ["sh"; "-c"; "cat missingfile"])
    then mkExecResponse None None StreamProtocolV4Name [StderrChunk catMessage]
           (Some (ErrExternal "command terminated with exit code 1"))
    else mkExecResponse None (Some (ErrExternal "pods not found")) "" [] None.

Definition emptyProc : Proc := mkProc [] "".

(** The status [Exec] derives from the error of the primary command. *)
Definition exitStatus (err : option error) : nat :=
  match err with
  | Some _ => 1
  | None => 0
  end.

(** What the handshake adds to the trace when it fails. *)
Definition handshakeLog (herr : option error) : list Event :=
  match herr with
  | Some err => [EvLogPrint ("failed to send test status: " +:+ Error err)]
  | None => []
  end.

Definition commandEcho (e : JobExecutor) (st : Proc) : Proc :=
  if negb (execDisabledCommandLog e)
  then emit (EvPrintln (Join (execCommand e ++ execArgs e) " ")) st
  else st.

(** Counting the callback invocations and the starts of log streaming
    among the calls of a run. *)
Definition isCallback (op : Op) : bool :=
  match op with OpCallback _ => true | _ => false end.

Definition isLogStreamPod (op : Op) : bool :=
  match op with OpLogStreamPod _ => true | _ => false end.

Definition callbackCount (l : list Op) : nat := length (List.filter isCallback l).

Definition logStreamCount (l : list Op) : nat := length (List.filter isLogStreamPod l).

(** A phase on which the watch loop acts. *)
Definition isLivePhase (ph : core.PodPhase) : bool :=
  bool_decide (ph = core.PodRunning)
  || bool_decide (ph = core.PodSucceeded)
  || bool_decide (ph = core.PodFailed).

(** The first delivered pod whose phase is Running, Succeeded or Failed
    is Running. *)
Fixpoint reachesRunning (events : list core.Pod) : bool :=
  match events with
  | [] => false
  | pod :: rest =>
      if bool_decide (core.Phase (core.Status pod) = core.PodRunning) then true
      else if isLivePhase (core.Phase (core.Status pod)) then false
      else reachesRunning rest
  end.

(** Some delivered pod has phase Running, Succeeded or Failed. *)
Definition reachesLivePhase (events : list core.Pod) : bool :=
  existsb (λ pod, isLivePhase (core.Phase (core.Status pod))) events.

Definition hasCallback (j : Job) : bool :=
  match podRunningCallback j with Some _ => true | None => false end.

Definition withPhase (ph : core.PodPhase) : core.Pod :=
  core.mkPod "kubejob-pod" "default"
    (core.mkPodSpec [] [testContainer] core.RestartPolicyNever)
    (core.mkPodStatus ph [] [core.mkStatus "test" None]).

(** A job spec with one container, and a job whose callback does
    nothing. *)
Definition sampleJobSpec : batch.Job :=
  batch.mkJob "kubejob-sample"
    (batch.mkTemplate (Some {["kubejob-label-x" := "kubejob-label-x"]})
       (core.mkPodSpec [] [testContainer] core.RestartPolicyNever)).

Definition idleJob : Job :=
  mkKubeJob sampleJobSpec (mkConfig None None) false false false false false
    (Some (λ _, mkCallbackResult None false)).

(** The job specs a trace submits to the orchestrator. *)
Definition createdJobs (l : list Op) : list batch.Job :=
  omap (λ op, match op with OpCreate jobSpec => Some jobSpec | _ => None end) l.

Definition jobContainers (jobSpec : batch.Job) : list core.Container :=
  core.Containers (batch.TemplateSpec (batch.Template jobSpec)).

(** A log stream that stays open and silent, as that of a container
    whose wrapper is still polling for the sentinel file. *)
Definition silentStream : LogStream := mkLogStream None [] true.

(** A cluster on which every call succeeds; the pod becomes Running
    and a later event reports it Running again. *)
Definition sampleCluster : Cluster :=
  mkCluster (λ _, None) (λ _, None)
    (λ _, Some [withPhase core.PodRunning]) (λ _, None)
    (λ _, inl [withPhase core.PodPending; withPhase core.PodRunning;
               withPhase core.PodRunning])
    (λ _ _, silentStream) false verbatim.

(** A job with an init container and two containers. *)
Definition initJob : Job :=
  mkKubeJob
    (batch.mkJob "kubejob-sample"
       (batch.mkTemplate (Some {["kubejob-label-x" := "kubejob-label-x"]}) sampleSpec))
    (mkConfig None None) false false false false false None.

Definition sampleJob : Job :=
  mkKubeJob sampleJobSpec (mkConfig None None) false false false false false None.

(** The handler of Test_RunnerWithCancel: [cancel(); return nil]. *)
Definition cancelHandler : JobExecutionHandler :=
  λ _, mkCallbackResult None true.

Definition idleHandler : JobExecutionHandler :=
  λ _, mkCallbackResult None false.

(** The first delivered pod in phase Running, Succeeded or Failed is a
    Running one, and the watch delivers at least one more pod after it. *)
Fixpoint deliversAfterRunning (events : list core.Pod) : bool :=
  match events with
  | [] => false
  | pod :: rest =>
      if bool_decide (core.Phase (core.Status pod) = core.PodRunning)
      then match rest with [] => false | _ => true end
      else if isLivePhase (core.Phase (core.Status pod)) then false
      else deliversAfterRunning rest
  end.

(** The job [RunWithExecutionHandler] hands to [Run] in the
    cancellation test. *)
Definition cancelJob : Job := (prepareJob sampleJob cancelHandler).2.

(** The calls of the deferred cleanup of [Run]: delete the job, list
    the pods of the selector, delete each listed pod. *)
Definition cleanupOps (j : Job) (w : Cluster) : list Op :=
  [OpDeleteJob (batch.JobName (job j)); OpListPods (labelSelector j)]
  ++ map (λ pod, OpDeletePod (core.PodName pod))
       (default [] (listPods w (labelSelector j))).

(** A log stream that delivers one line and ends. *)
Definition endedStream : LogStream :=
  mkLogStream None [mkRead "hello
" ReadOk; mkRead "" ReadEOF] false.

(** A cluster on which the pod fails, and the same cluster when the
    deletion of the job fails as well. *)
Definition failingCluster : Cluster :=
  mkCluster (λ _, None) (λ _, None)
    (λ _, Some [failedPod]) (λ _, None)
    (λ _, inl [withPhase core.PodPending; withPhase core.PodRunning; failedPod])
    (λ _ _, endedStream) false verbatim.

Definition deleteJobError : error := ErrExternal "jobs.batch kubejob-sample not found".

Definition deleteFailsCluster : Cluster :=
  mkCluster (λ _, None) (λ _, Some deleteJobError)
    (λ _, Some [failedPod]) (λ _, None)
    (λ _, inl [withPhase core.PodPending; withPhase core.PodRunning; failedPod])
    (λ _ _, endedStream) false verbatim.

(** The same cluster when the deletion of the pod fails instead. *)
Definition deletePodFailsCluster : Cluster :=
  mkCluster (λ _, None) (λ _, None)
    (λ _, Some [failedPod]) (λ _, Some (ErrExternal "pods kubejob-pod not found"))
    (λ _, inl [withPhase core.PodPending; withPhase core.PodRunning; failedPod])
    (λ _ _, endedStream) false verbatim.

Definition errorOf (o : outcome (option error)) : option error :=
  match o with
  | Returned e => e
  | _ => None
  end.

(** Counting the finish events among the events sent for a container. *)
Definition finishedCount (logs : list ContainerLog) : nat :=
  length (List.filter IsFinished logs).

(** A [ReadString] that returns a whole line, and the event it yields. *)
Definition lineRead (l : string) : ReadResult := mkRead l ReadOk.

Definition lineLog (pod : core.Pod) (container : core.Container) (l : string)
    : ContainerLog :=
  mkContainerLog pod container l false.

(** A log stream that cannot be opened, one whose first read fails, and
    one on which a second read returns [io.EOF] again before the stream
    is closed. *)
Definition unopenedStream : LogStream :=
  mkLogStream (Some (ErrExternal "container is waiting to start")) [] false.

Definition brokenStream : LogStream :=
  mkLogStream None
    [lineRead "hello
"; mkRead "" (ReadFailed (ErrExternal "unexpected EOF"))] false.

Definition twiceEndedStream : LogStream :=
  mkLogStream None [mkRead "" ReadEOF; mkRead "" ReadEOF] false.

Definition restartPolicy (jobSpec : batch.Job) : core.RestartPolicy :=
  core.RestartPolicyOf (batch.TemplateSpec (batch.Template jobSpec)).

Definition jobLabels (jobSpec : batch.Job) : gmap string string :=
  default ∅ (batch.Labels (batch.Template jobSpec)).

(** What a successful build guarantees about the job [j] it returns
    for [jobSpec], having started at identifier [n] and ended at [n']:
    - the containers of the pod template are those of [jobSpec], each
      with a non-empty name, its own when it had one;
    - the restart policy is "Never" when [jobSpec] had none, and the
      one of [jobSpec] otherwise;
    - the labels are those of [jobSpec] plus one label, key and value
      alike, made of an identifier drawn in this build; the label is
      one of the selectors of the run, and it differs from the label
      made of any other identifier when identifiers do not repeat. *)
Definition builtFrom (xid_New : nat → string) (jobSpec : batch.Job) (n : nat)
    (j : Job) (n' : nat) : Prop :=
  Forall (λ c, core.Name c ≠ "") (jobContainers (job j))
  ∧ Forall2 (λ c' c, core.Image c' = core.Image c
                     ∧ core.Command c' = core.Command c
                     ∧ core.Args c' = core.Args c
                     ∧ (core.Name c ≠ "" → core.Name c' = core.Name c))
      (jobContainers (job j)) (jobContainers jobSpec)
  ∧ restartPolicy (job j)
    = (if bool_decide (restartPolicy jobSpec = "") then "Never"
       else restartPolicy jobSpec)
  ∧ ∃ k, (n ≤ k < n')%nat
         ∧ jobLabels (job j)
           = <["kubejob-label-" +:+ xid_New k := "kubejob-label-" +:+ xid_New k]>
               (jobLabels jobSpec)
         ∧ ("kubejob-label-" +:+ xid_New k) +:+ "=" +:+ ("kubejob-label-" +:+ xid_New k)
           ∈ labelSelectors (batch.Labels (batch.Template (job j)))
         ∧ (Inj (=) (=) xid_New →
            ∀ k', k' ≠ k →
                  "kubejob-label-" +:+ xid_New k' ≠ "kubejob-label-" +:+ xid_New k).

(** Identifiers for the examples: the decimal rendering of the counter. *)
Definition decimalId (n : nat) : string := pretty n.

Definition sampleBuilder : JobBuilder :=
  SetCommand (SetImage (NewJobBuilder (mkConfig None None) "default")
                "golang:1.17-stretch")
    ["go"; "version"].

(** A job spec that asks for restarts on failure. *)
Definition restartingJobSpec : batch.Job :=
  batch.mkJob "kubejob-sample"
    (batch.mkTemplate None
       (core.mkPodSpec [] [core.mkContainer "" "golang:1.17-stretch" ["echo"; "hello"] []]
          "OnFailure")).

(** A pod whose statuses report a failed container that its spec does
    not have, and one whose init container and regular container share
    a name. *)
Definition strayStatusPod : core.Pod :=
  core.mkPod "kubejob-pod" "default"
    (core.mkPodSpec [] [testContainer] core.RestartPolicyNever)
    (core.mkPodStatus core.PodFailed []
       [core.mkStatus "ghost" (Some (core.mkTerminated 1 "Error"))]).

Definition sharedNamePod : core.Pod :=
  core.mkPod "kubejob-pod" "default"
    (core.mkPodSpec [core.mkContainer "test" "busybox" ["true"] []]
       [testContainer] core.RestartPolicyNever)
    (core.mkPodStatus core.PodFailed
       [core.mkStatus "test" (Some (core.mkTerminated 1 "Error"))] []).

(** The key and value of a label, as the selector prints them. *)
Definition selectorOf (kv : string * string) : string := kv.1 +:+ "=" +:+ kv.2.

Definition isUnnamed (c : core.Container) : Prop := core.Name c = "".

Global Instance isUnnamed_dec c : Decision (isUnnamed c) :=
  decide (core.Name c = "").

(** Two containers left unnamed around a named one. *)
Definition unnamedContainers : list core.Container :=
  [core.mkContainer "" "busybox" ["true"] [];
   core.mkContainer "main" "busybox" ["true"] [];
   core.mkContainer "" "busybox" ["false"] []].

Definition isError {A} (r : A + error) : Prop :=
  match r with inr _ => True | inl _ => False end.

(** The protocol names for which the [switch] of [stream] has a case. *)
Definition knownProtocols : list string :=
  [StreamProtocolV4Name; StreamProtocolV3Name; StreamProtocolV2Name; "";
   StreamProtocolV1Name].

(** The trace event a chunk leaves when the remote streams go to the
    process's own stdout and stderr. *)
Definition chunkEvent (c : Chunk) : Event :=
  match c with
  | StdoutChunk p => EvStdout p
  | StderrChunk p => EvStderr p
  end.

(** A server that answers with a protocol nobody offered. *)
Definition strangeTransport : Transport :=
  λ _ _, mkExecResponse None None "v5.channel.k8s.io" [] None.

(** A container that prints to both streams and exits 0. *)
Definition chattyTransport : Transport :=
  λ _ _, mkExecResponse None None StreamProtocolV4Name
           [StdoutChunk "one"; StderrChunk "two"; StdoutChunk "three"] None.

(** A server whose connection upgrade fails. *)
Definition refusingTransport : Transport :=
  λ _ _, mkExecResponse None (Some (ErrExternal "unable to upgrade connection")) "" [] None.

(** The texts of the pod deletions that fail, in the order of the list. *)
Definition deleteFailureTexts (w : Cluster) (items : list core.Pod) : list string :=
  omap (λ pod, (λ err, "failed to delete pod: " +:+ Error err)
               <$> deletePod w (core.PodName pod)) items.

Definition errorText (e : option error) : list string :=
  match e with
  | Some err => [Error err]
  | None => []
  end.

(** A cluster on which the pod succeeds and every call succeeds. *)
Definition succeedingCluster : Cluster :=
  mkCluster (λ _, None) (λ _, None)
    (λ _, Some [withPhase core.PodSucceeded]) (λ _, None)
    (λ _, inl [withPhase core.PodPending; withPhase core.PodRunning;
               withPhase core.PodSucceeded])
    (λ _ _, endedStream) false verbatim.

(** The first delivered pod in phase Succeeded or Failed. *)
Fixpoint firstTerminal (events : list core.Pod) : option core.Pod :=
  match events with
  | [] => None
  | pod :: rest =>
      if bool_decide (core.Phase (core.Status pod) = core.PodSucceeded)
         || bool_decide (core.Phase (core.Status pod) = core.PodFailed)
      then Some pod
      else firstTerminal rest
  end.

(** A job whose callback, if it has one, returns nil and leaves the
    context alone. *)
Definition quietCallback (j : Job) : Prop :=
  ∀ cb p, podRunningCallback j = Some cb →
          callbackError (cb p) = None ∧ callbackCancels (cb p) = false.

(** The chain of stages [Run] puts around an error of the watch
    goroutine. *)
Definition waitError (err : error) : error :=
  ErrWrap "failed to wait"
    (ErrWrap "failed to watching" (ErrWrap "failed to wait in watchLoop" err)).

(** What the reader goroutine first sends on [errchan]. *)
Fixpoint firstSent (rs : list ReadResult) : option (option error) :=
  match rs with
  | [] => None
  | r :: rest =>
      match readErr r with
      | ReadOk => firstSent rest
      | ReadEOF => Some None
      | ReadFailed err => Some (Some err)
      end
  end.

(** A log stream that fails to open or on which some read ends with
    [io.EOF] or an error. *)
Definition streamEnds (s : LogStream) : Prop :=
  is_Some (openError s) ∨ is_Some (firstSent (reads s)).

(** The handler of a failing command: it returns the [FailedJob] that
    [Exec] gave it. *)
Definition failingHandler : JobExecutionHandler :=
  λ _, mkCallbackResult (Some (ErrFailedJob runningPod)) false.


(** A pod with an init container whose log stream cannot be opened. *)
Definition initPod : core.Pod :=
  core.mkPod "kubejob-pod" "default" sampleSpec
    (core.mkPodStatus core.PodRunning [] []).

(** A job with every kind of container log switched off. *)
Definition silencedJob : Job :=
  mkKubeJob sampleJobSpec (mkConfig None None) true false true false false None.

Definition initUnopenedLogs (p : core.Pod) (c : core.Container) : LogStream :=
  if bool_decide (core.Name c = "init") then unopenedStream else endedStream.

(** The calls the watch goroutine makes. *)
Definition isWatchOp (op : Op) : bool := isCallback op || isLogStreamPod op.

(** A cluster that refuses to create the job, and one on which the
    watch cannot be started. *)
Definition refusingCluster : Cluster :=
  mkCluster (λ _, Some (ErrExternal "jobs.batch is forbidden")) (λ _, None)
    (λ _, Some [failedPod]) (λ _, None)
    (λ _, inl []) (λ _ _, endedStream) false verbatim.

Definition unwatchableCluster : Cluster :=
  mkCluster (λ _, None) (λ _, None)
    (λ _, Some [failedPod]) (λ _, None)
    (λ _, inr (ErrExternal "watch is forbidden")) (λ _ _, endedStream) false verbatim.

(** A job spec without a name, with one unnamed container. *)
Definition anonymousJobSpec : batch.Job :=
  batch.mkJob ""
    (batch.mkTemplate None
       (core.mkPodSpec [initContainer]
          [core.mkContainer "" "busybox" ["true"] []; testContainer] "")).

(** * Theorems *)

(** ** FailedJob *)

Lemma isErrorStatus_spec (s : core.ContainerStatus) :
  isErrorStatus s = true ↔ terminatedWithError s.
Proof.
  unfold isErrorStatus, terminatedWithError.
  destruct (core.Terminated s) as [t|]; split.
  - intros H. apply bool_decide_eq_true in H. eauto.
  - intros (t' & [= <-] & H). by apply bool_decide_eq_true.
  - discriminate.
  - intros (t' & [=] & _).
Qed.

Lemma errorContainerNamesFromStatuses_filter (l : list core.ContainerStatus) :
  errorContainerNamesFromStatuses l =
  map core.StatusName (filter (λ s, isErrorStatus s = true) l).
Proof.
  induction l as [|s l IH]; [done|].
  cbn [errorContainerNamesFromStatuses]. rewrite filter_cons.
  case_decide as He; unfold isErrorStatus in He;
    destruct (core.Terminated s) as [t|].
  - rewrite He. cbn. by rewrite IH.
  - discriminate.
  - destruct (bool_decide (core.Reason t = "Error")); [done|exact IH].
  - exact IH.
Qed.

Lemma FailedContainerNames_filter (j : FailedJob) :
  FailedContainerNames j =
  map core.StatusName (filter (λ s, isErrorStatus s = true) (podStatuses (Pod j))).
Proof.
  unfold FailedContainerNames, podStatuses.
  rewrite filter_app, map_app, !errorContainerNamesFromStatuses_filter. done.
Qed.

Lemma addContainers_lookup_inv m cs k c :
  addContainers m cs !! k = Some c →
  (c ∈ cs ∧ core.Name c = k) ∨ m !! k = Some c.
Proof.
  revert m. induction cs as [|x cs IH]; intros m H; cbn in H; [by right|].
  apply IH in H as [[Hin Hn]|H].
  - left. split; [by right|done].
  - destruct (decide (core.Name x = k)) as [<-|Hne].
    + rewrite lookup_insert_eq in H. injection H as <-. left. split; [by left|done].
    + rewrite lookup_insert_ne in H by done. by right.
Qed.

Lemma addContainers_lookup_mono m cs k :
  is_Some (m !! k) → is_Some (addContainers m cs !! k).
Proof.
  revert m. induction cs as [|x cs IH]; intros m H; cbn; [done|].
  apply IH. destruct (decide (core.Name x = k)) as [<-|Hne].
  - rewrite lookup_insert_eq. eauto.
  - by rewrite lookup_insert_ne.
Qed.

Lemma addContainers_lookup_elem m cs c :
  c ∈ cs → is_Some (addContainers m cs !! core.Name c).
Proof.
  revert m. induction cs as [|x cs IH]; intros m H; [by apply elem_of_nil in H|].
  apply elem_of_cons in H as [->|H]; cbn.
  - apply addContainers_lookup_mono. rewrite lookup_insert_eq. eauto.
  - by apply IH.
Qed.

Lemma nameToContainerMap_lookup (j : FailedJob) (c : core.Container) :
  c ∈ specContainers (Pod j) →
  ∃ c', nameToContainerMap j !! core.Name c = Some c' ∧
        c' ∈ specContainers (Pod j) ∧ core.Name c' = core.Name c.
Proof.
  intros Hc. unfold specContainers in *.
  assert (is_Some (nameToContainerMap j !! core.Name c)) as [c' Hc'].
  { unfold nameToContainerMap. apply elem_of_app in Hc as [Hc|Hc].
    - apply addContainers_lookup_mono. by apply addContainers_lookup_elem.
    - by apply addContainers_lookup_elem. }
  exists c'. split; [done|].
  unfold nameToContainerMap in Hc'.
  apply addContainers_lookup_inv in Hc' as [[? ?]|Hc'].
  { split; [apply elem_of_app; by right|done]. }
  apply addContainers_lookup_inv in Hc' as [[? ?]|Hc'].
  { split; [apply elem_of_app; by left|done]. }
  by rewrite lookup_empty in Hc'.
Qed.

Lemma NoDup_fmap_eq {A B} (f : A → B) (l : list A) x y :
  NoDup (map f l) → x ∈ l → y ∈ l → f x = f y → x = y.
Proof.
  induction l as [|a l IH]; intros Hnd Hx Hy Hf; [by apply elem_of_nil in Hx|].
  cbn in Hnd. apply NoDup_cons in Hnd as [Hna Hnd].
  apply elem_of_cons in Hx as [->|Hx]; apply elem_of_cons in Hy as [->|Hy].
  - done.
  - exfalso. apply Hna. rewrite Hf. apply list_elem_of_fmap. eauto.
  - exfalso. apply Hna. rewrite <- Hf. apply list_elem_of_fmap. eauto.
  - by apply IH.
Qed.

(** C6.  When the statuses of the pod name containers of its spec and
    the names in the spec are distinct, [FailedContainers] is, status by
    status, the container named by each status that is terminated with
    reason "Error", init statuses first, then the regular ones, each in
    status order; a container of the pod is in the result exactly when
    one of its statuses is terminated with reason "Error". *)
Theorem FailedContainers_exact (j : FailedJob) :
  map core.StatusName (podStatuses (Pod j)) ⊆ map core.Name (specContainers (Pod j)) →
  NoDup (map core.Name (specContainers (Pod j))) →
  Forall2 (λ c s, c ∈ specContainers (Pod j) ∧ core.Name c = core.StatusName s)
    (FailedContainers j)
    (filter (λ s, isErrorStatus s = true)
       (core.InitContainerStatuses (core.Status (Pod j)))
     ++ filter (λ s, isErrorStatus s = true)
          (core.ContainerStatuses (core.Status (Pod j))))
  ∧ ∀ c, c ∈ FailedContainers j ↔
         c ∈ specContainers (Pod j) ∧
         ∃ s, s ∈ podStatuses (Pod j) ∧ core.StatusName s = core.Name c ∧
              terminatedWithError s.
Proof.
  intros Hsub Hnd.
  assert (∀ s, s ∈ podStatuses (Pod j) →
            ∃ c, c ∈ specContainers (Pod j) ∧ core.Name c = core.StatusName s)
    as Hnames.
  { intros s Hs.
    assert (core.StatusName s ∈ map core.Name (specContainers (Pod j))) as Hn.
    { apply Hsub, list_elem_of_fmap. eauto. }
    apply list_elem_of_fmap in Hn as (c & Hn & Hc). eauto. }
  assert (Forall2 (λ c s, c ∈ specContainers (Pod j) ∧ core.Name c = core.StatusName s)
            (FailedContainers j)
            (filter (λ s, isErrorStatus s = true) (podStatuses (Pod j)))) as HF.
  { unfold FailedContainers. rewrite FailedContainerNames_filter.
    rewrite <- !list_fmap_compose. apply Forall2_fmap_l, Forall_Forall2_diag.
    apply Forall_forall. intros s Hs. apply list_elem_of_filter in Hs as [_ Hs].
    destruct (Hnames s Hs) as (c & Hc & Hn).
    destruct (nameToContainerMap_lookup j c Hc) as (c' & Hl & Hc' & Hn').
    cbn. rewrite <- Hn, Hl. cbn. split; [done|congruence]. }
  split.
  { unfold podStatuses in HF. by rewrite filter_app in HF. }
  intros c. split.
  - intros Hc. apply list_elem_of_lookup in Hc as [i Hi].
    destruct (Forall2_lookup_l _ _ _ _ _ HF Hi) as (s & Hs & Hin & Hn).
    split; [done|]. exists s.
    apply list_elem_of_lookup_2, list_elem_of_filter in Hs as [He Hs].
    split; [done|]. split; [done|]. by apply isErrorStatus_spec.
  - intros (Hc & s & Hs & Hn & He).
    assert (s ∈ filter (λ s, isErrorStatus s = true) (podStatuses (Pod j))) as Hf.
    { apply list_elem_of_filter. split; [by apply isErrorStatus_spec|done]. }
    apply list_elem_of_lookup in Hf as [i Hi].
    destruct (Forall2_lookup_r _ _ _ _ _ HF Hi) as (c' & Hc' & Hin & Hn').
    assert (c' = c) as <-.
    { apply (NoDup_fmap_eq core.Name (specContainers (Pod j))); [done..|congruence]. }
    by apply list_elem_of_lookup_2 in Hc'.
Qed.

Lemma FailedContainers_exact_witness :
  FailedContainers (mkFailedJob failedPod) = [testContainer]
  ∧ ∀ c, c ∈ FailedContainers (mkFailedJob failedPod) ↔
         c ∈ specContainers failedPod ∧
         ∃ s, s ∈ podStatuses failedPod ∧ core.StatusName s = core.Name c ∧
              terminatedWithError s.
Proof.
  split; [reflexivity|].
  apply (FailedContainers_exact (mkFailedJob failedPod)).
  - vm_compute. intros x Hx. exact Hx.
  - compute_done.
Defined.

(** C10.  Whatever pod a [FailedJob] carries, its message is the same
    fixed text, also when read through the error interface. *)
Theorem FailedJob_Error_constant (j : FailedJob) :
  FailedJob_Error j = "failed to job"
  ∧ Error (ErrFailedJob (Pod j)) = "failed to job".
Proof. split; reflexivity. Qed.

(** ** JobExecutor *)

Lemma execRequests_app (a b : list Event) :
  execRequests (a ++ b) = execRequests a ++ execRequests b.
Proof. unfold execRequests. apply omap_app. Qed.

Lemma copyChunks_std (cs : list Chunk) (st : Proc) :
  buffer (foldl (copyChunk (mkStreamOptions OsStdout OsStderr false)) st cs) = buffer st
  ∧ execRequests (trace (foldl (copyChunk (mkStreamOptions OsStdout OsStderr false)) st cs))
    = execRequests (trace st).
Proof.
  revert st. induction cs as [|c cs IH]; intros st; [done|].
  cbn [foldl]. destruct (IH (copyChunk (mkStreamOptions OsStdout OsStderr false) st c))
    as [-> ->].
  destruct c; cbn; rewrite execRequests_app; cbn; by rewrite app_nil_r.
Qed.

(** [stream] returns under a server that names a known protocol; with
    the sinks [exec] passes it leaves the buffer and the list of exec
    requests as they are. *)
Lemma stream_returns (transport : Transport) (req : ExecRequest) (st : Proc) :
  negotiatesKnownProtocol transport →
  ∃ err st',
    stream transport req (mkStreamOptions OsStdout OsStderr false) st
      = (Returned err, st')
    ∧ buffer st' = buffer st
    ∧ execRequests (trace st') = execRequests (trace st).
Proof.
  intros Hk. unfold stream. specialize (Hk (trace st) req).
  destruct (requestError (transport (trace st) req)) as [e1|]; [by eauto|].
  destruct (negotiateError (transport (trace st) req)) as [e2|]; [by eauto|].
  destruct Hk as [h ->]; [done..|].
  eexists _, _. split; [done|].
  destruct (copyChunks_std (chunks (transport (trace st) req))
              (emit (EvTiming "negotiate time = ") st)) as [Hb Hr].
  cbn. rewrite Hb. split; [done|].
  rewrite execRequests_app, Hr. cbn.
  rewrite execRequests_app. cbn. by rewrite !app_nil_r.
Qed.

(** [exec] sends one request and returns the bytes of a buffer nothing
    was written to. *)
Lemma exec_returns (transport : Transport) (e : JobExecutor) (p : core.Pod)
    (cmd : list string) (st : Proc) :
  pod e = Some p →
  negotiatesKnownProtocol transport →
  ∃ err st',
    exec transport e cmd st = (Returned ("", err), st')
    ∧ execRequests (trace st') = execRequests (trace st) ++ [execRequest p e cmd].
Proof.
  intros Hp Hk. unfold exec. rewrite Hp.
  destruct (stream_returns transport (execRequest p e cmd)
              (newBuffer (emit (EvExec (execRequest p e cmd)) st)) Hk)
    as (err & st1 & Hs & Hb & Hr).
  unfold execRequest in Hs. rewrite Hs.
  assert (execRequests (trace (emit (EvTiming "exec time = ") st1))
          = execRequests (trace st) ++ [execRequest p e cmd]) as Ht.
  { cbn. rewrite execRequests_app, Hr. cbn.
    rewrite execRequests_app. cbn. by rewrite app_nil_r. }
  assert (bufferBytes (emit (EvTiming "exec time = ") st1) = "") as Hbuf.
  { unfold bufferBytes. cbn. by rewrite Hb. }
  destruct err as [err|]; rewrite Hbuf; eauto.
Qed.

(** C7.  With the pod set and a server that names a known protocol,
    [Exec] returns; it sends exactly two exec requests, the command
    line and then [echo <status> > /tmp/kubejob-status] with status 0
    when the command's exec returned no error and 1 otherwise; and
    whatever the handshake's own exec returns, [Exec] returns the output
    and the error derived from the primary exec, a handshake error
    adding one log line to the trace and nothing else. *)
Theorem Exec_always_attempts_handshake (transport : Transport)
    (e : JobExecutor) (p : core.Pod) (st : Proc) :
  pod e = Some p →
  negotiatesKnownProtocol transport →
  ∃ out err st1 hout herr st3,
    exec transport e (execCommand e ++ execArgs e) (commandEcho e st)
      = (Returned (out, err), st1)
    ∧ exec transport e ["echo"; Sprint (exitStatus err); ">"; "/tmp/kubejob-status"]
        (emit (EvTiming "command time = ") st1)
      = (Returned (hout, herr), st3)
    ∧ Exec transport e st
      = (Returned (out, match err with
                        | Some _ => Some (ErrFailedJob p)
                        | None => None
                        end),
         mkProc (trace st3 ++ handshakeLog herr ++ [EvTiming "send test status time = "])
                (buffer st3))
    ∧ execRequests (trace st3)
      = execRequests (trace st)
        ++ [execRequest p e (execCommand e ++ execArgs e);
            execRequest p e ["echo"; Sprint (exitStatus err); ">"; "/tmp/kubejob-status"]].
Proof.
  intros Hp Hk.
  destruct (exec_returns transport e p (execCommand e ++ execArgs e)
              (commandEcho e st) Hp Hk) as (err & st1 & H1 & R1).
  destruct (exec_returns transport e p
              ["echo"; Sprint (exitStatus err); ">"; "/tmp/kubejob-status"]
              (emit (EvTiming "command time = ") st1) Hp Hk)
    as (herr & st3 & H3 & R3).
  exists "", err, st1, "", herr, st3.
  split; [done|]. split; [done|]. split.
  - unfold Exec. fold (commandEcho e st). rewrite H1.
    unfold handshakeCommand, exitStatus in *. rewrite Hp.
    destruct err as [err|]; rewrite H3; destruct herr as [herr|];
      unfold emit; cbn; by rewrite <- ?app_assoc.
  - rewrite R3. cbn. rewrite execRequests_app, R1. cbn.
    assert (execRequests (trace (commandEcho e st)) = execRequests (trace st)) as ->.
    { unfold commandEcho. destruct (negb _); [|done].
      cbn. rewrite execRequests_app. cbn. by rewrite app_nil_r. }
    by rewrite <- !app_assoc.
Qed.

Lemma catTransportNoHandshake_known : negotiatesKnownProtocol catTransportNoHandshake.
Proof.
  intros tr req _. unfold catTransportNoHandshake.
  destruct (bool_decide _); cbn; [by eauto|discriminate].
Qed.

Lemma Exec_always_attempts_handshake_witness :
  pod testExecutor = Some runningPod
  ∧ negotiatesKnownProtocol catTransportNoHandshake
  ∧ ∃ out err st',
      Exec catTransportNoHandshake testExecutor emptyProc = (Returned (out, err), st')
      ∧ err = Some (ErrFailedJob runningPod)
      ∧ execRequests (trace st')
        = [execRequest runningPod testExecutor ["cat"; "missingfile"];
           execRequest runningPod testExecutor
             ["echo"; "1"; ">"; "/tmp/kubejob-status"]].
Proof.
  split; [reflexivity|]. split; [exact catTransportNoHandshake_known|].
  destruct (Exec_always_attempts_handshake catTransportNoHandshake testExecutor
              runningPod emptyProc eq_refl catTransportNoHandshake_known)
    as (out & err & st1 & hout & herr & st3 & H1 & H3 & HE & HR).
  vm_compute in H1. injection H1 as <- <- <-.
  eexists _, _, _. split; [exact HE|]. split; [reflexivity|].
  cbn [trace]. rewrite !execRequests_app, HR.
  destruct herr; reflexivity.
Defined.

(** Whatever the transport answers, the bytes [Exec] returns are the
    bytes of the buffer [exec] never writes to. *)
Lemma Exec_output_empty (transport : Transport) (e : JobExecutor) (st st' : Proc)
    (out : string) (err : option error) :
  Exec transport e st = (Returned (out, err), st') → out = "".
Proof.
  assert (∀ cmd s o er s',
            exec transport e cmd s = (Returned (o, er), s') → o = "") as Hexec.
  { intros cmd s o er s'. unfold exec. destruct (pod e) as [p|]; [|discriminate].
    unfold stream.
    destruct (requestError _); [intros [= <- _ _]; reflexivity|].
    destruct (negotiateError _); [intros [= <- _ _]; reflexivity|].
    destruct (selectStreamer _); [|discriminate].
    destruct (streamError _); intros [= <- _ _]; unfold bufferBytes; cbn;
      apply copyChunks_std. }
  unfold Exec.
  destruct (exec transport e (execCommand e ++ execArgs e) _)
    as [[[o er]| |] s1] eqn:H1; [|discriminate..].
  destruct (exec transport e (handshakeCommand _) _)
    as [[[o2 er2]| |] s3] eqn:H3; [|discriminate..].
  intros [= <- _ _]. by eapply Hexec.
Qed.

(** C1, on the code.  [cat missingfile] in the container "test": the
    message of [cat] is copied to the process's own stderr, and [Exec]
    returns no bytes at all, so the output does not contain "No such
    file or directory"; the error is a [FailedJob] on the pod as it was
    when it became live, in which no container is terminated, so its
    [FailedContainers] is empty. *)
Theorem Exec_cat_missingfile_returns_no_output :
  ∃ st',
    Exec catTransport testExecutor emptyProc
      = (Returned ("", Some (ErrFailedJob runningPod)), st')
    ∧ EvStderr catMessage ∈ trace st'
    ∧ Contains catMessage "No such file or directory" = true
    ∧ Contains "" "No such file or directory" = false
    ∧ FailedContainers (mkFailedJob runningPod) = [].
Proof.
  eexists. split; [vm_compute; reflexivity|].
  split; [|by vm_compute].
  cbn. set_solver.
Qed.

(** ** watchLoop *)

Lemma callbackCount_app (a b : list Op) :
  callbackCount (a ++ b) = callbackCount a + callbackCount b.
Proof. unfold callbackCount. by rewrite List.filter_app, length_app. Qed.

Lemma logStreamCount_app (a b : list Op) :
  logStreamCount (a ++ b) = logStreamCount a + logStreamCount b.
Proof. unfold logStreamCount. by rewrite List.filter_app, length_app. Qed.

(** Once the guard has fired, the watch goroutine makes no further call. *)
Lemma watchEvents_onceDone (j : Job) (events : list core.Pod) (ws : WatchState) :
  onceDone ws = true → ops (watchEvents j events ws).2 = ops ws.
Proof.
  revert ws. induction events as [|pod rest IH]; intros ws Hd; [done|].
  cbn [watchEvents]. destruct (ctxDone ws); [done|].
  case_bool_decide; [by apply IH|].
  case_bool_decide.
  { unfold onceRunning. rewrite Hd. rewrite IH by done. done. }
  destruct (_ || _).
  { unfold onceTerminal. rewrite Hd. by case_bool_decide. }
  by rewrite IH.
Qed.

Lemma watchEvents_ctxDone (j : Job) (events : list core.Pod) (ws : WatchState) :
  ctxDone ws = true → ops (watchEvents j events ws).2 = ops ws.
Proof. intros Hc. destruct events; cbn [watchEvents]; [done|]. by rewrite Hc. Qed.

(** Before the guard fires: the callback runs on the first pod that is
    Running, unless a Succeeded or Failed pod comes first; log
    streaming starts on the first pod in any of the three phases. *)
Lemma watchEvents_fresh (j : Job) (events : list core.Pod) (ws : WatchState) :
  onceDone ws = false → ctxDone ws = false → isLivePhase (phase ws) = false →
  callbackCount (ops (watchEvents j events ws).2)
  = callbackCount (ops ws)
    + (if hasCallback j && reachesRunning events then 1 else 0)
  ∧ logStreamCount (ops (watchEvents j events ws).2)
    = logStreamCount (ops ws) + (if reachesLivePhase events then 1 else 0).
Proof.
  revert ws. induction events as [|pod rest IH]; intros ws Hd Hc Hq.
  { cbn. rewrite andb_false_r. lia. }
  cbn [watchEvents reachesRunning reachesLivePhase existsb].
  rewrite Hc.
  case_bool_decide as Hsame.
  { rewrite Hsame, Hq. cbn [orb].
    assert (bool_decide (phase ws = core.PodRunning) = false) as ->.
    { unfold isLivePhase in Hq. by destruct (bool_decide (phase ws = core.PodRunning)). }
    by apply IH. }
  case_bool_decide as Hrun.
  { unfold isLivePhase. rewrite (bool_decide_eq_true_2 _ Hrun). cbn [orb].
    rewrite andb_true_r.
    unfold onceRunning, hasCallback. rewrite Hd.
    destruct (podRunningCallback j) as [callback|];
      [destruct (callbackError (callback pod))|];
      rewrite ?watchEvents_onceDone by done;
      unfold record, setPhase; cbn [ops snd];
      rewrite !callbackCount_app, !logStreamCount_app; cbn; lia. }
  unfold isLivePhase. rewrite (bool_decide_eq_false_2 _ Hrun). cbn [orb].
  destruct (bool_decide (_ = core.PodSucceeded) || bool_decide (_ = core.PodFailed))
    eqn:Hterm.
  { rewrite andb_false_r. unfold onceTerminal. rewrite Hd.
    destruct (bool_decide (core.Phase (core.Status pod) = core.PodFailed));
      cbn [snd ops]; rewrite !callbackCount_app, !logStreamCount_app; cbn; lia. }
  cbn [orb].
  destruct (IH (setPhase (core.Phase (core.Status pod)) ws)) as [-> ->];
    [done|done| |done].
  unfold isLivePhase. cbn [setPhase phase].
  by rewrite (bool_decide_eq_false_2 _ Hrun).
Qed.

Lemma watchLoop_ops (j : Job) (w : Cluster) (ctx : bool) (events : list core.Pod) :
  (watchLoop j w ctx events).1.2
  = ops (watchEvents j events (mkWatchState "" false ctx [])).2.
Proof.
  unfold watchLoop.
  destruct (watchEvents j events _) as [r ws]. cbn [snd].
  destruct (streamedPod (ops ws)); [|done].
  by destruct (logStreamPod _ _ _ _).
Qed.

(** C5, as the code has it.  In every call of [watchLoop] the callback
    is invoked once if a callback is set, the context is not done and
    the first pod delivered in phase Running, Succeeded or Failed is a
    Running one, and never otherwise; log streaming starts once if the
    context is not done and some delivered pod is in one of the three
    phases, and never otherwise.  Further Running events change
    neither count. *)
Theorem watchLoop_callback_at_most_once (j : Job) (w : Cluster) (ctx : bool)
    (events : list core.Pod) :
  callbackCount (watchLoop j w ctx events).1.2
  = (if hasCallback j && negb ctx && reachesRunning events then 1 else 0)
  ∧ logStreamCount (watchLoop j w ctx events).1.2
    = (if negb ctx && reachesLivePhase events then 1 else 0)
  ∧ (callbackCount (watchLoop j w ctx events).1.2 ≤ 1)%nat
  ∧ (logStreamCount (watchLoop j w ctx events).1.2 ≤ 1)%nat.
Proof.
  rewrite watchLoop_ops.
  assert (callbackCount (ops (watchEvents j events (mkWatchState "" false ctx [])).2)
          = (if hasCallback j && negb ctx && reachesRunning events then 1 else 0)
          ∧ logStreamCount (ops (watchEvents j events (mkWatchState "" false ctx [])).2)
            = (if negb ctx && reachesLivePhase events then 1 else 0)) as [-> ->].
  { destruct ctx.
    - rewrite watchEvents_ctxDone by done. cbn. by rewrite andb_false_r.
    - rewrite andb_true_r. cbn [negb andb].
      by destruct (watchEvents_fresh j events (mkWatchState "" false false []))
        as [-> ->]. }
  split; [done|]. split; [done|].
  split; [destruct (_ && _ && _)|destruct (_ && _)]; lia.
Qed.

(** C5 as stated fails on a pod that fails before it runs: log
    streaming starts, the callback is never invoked. *)
Lemma watchLoop_callback_not_fired :
  callbackCount
    (watchLoop idleJob failingCluster false
       [withPhase core.PodPending; withPhase core.PodFailed]).1.2 = 0
  ∧ logStreamCount
      (watchLoop idleJob failingCluster false
         [withPhase core.PodPending; withPhase core.PodFailed]).1.2 = 1.
Proof. rewrite watchLoop_ops. split; reflexivity. Qed.

(** ** Run and RunWithExecutionHandler *)

Lemma createdJobs_app (a b : list Op) :
  createdJobs (a ++ b) = createdJobs a ++ createdJobs b.
Proof. unfold createdJobs. apply omap_app. Qed.

Lemma watchEvents_createdJobs (j : Job) (events : list core.Pod) (ws : WatchState) :
  createdJobs (ops (watchEvents j events ws).2) = createdJobs (ops ws).
Proof.
  revert ws. induction events as [|pod rest IH]; intros ws; [done|].
  cbn [watchEvents]. destruct (ctxDone ws); [done|].
  case_bool_decide; [by apply IH|].
  case_bool_decide.
  { unfold onceRunning. destruct (onceDone ws).
    - by rewrite IH.
    - destruct (podRunningCallback j) as [callback|];
        [destruct (callbackError (callback pod))|];
        rewrite ?IH; unfold record, setPhase; cbn [ops snd];
        rewrite !createdJobs_app; cbn; by rewrite !app_nil_r. }
  destruct (_ || _).
  { unfold onceTerminal.
    destruct (onceDone ws), (bool_decide (core.Phase (core.Status pod) = core.PodFailed));
      cbn [ops snd]; rewrite ?createdJobs_app; cbn; by rewrite ?app_nil_r. }
  by rewrite IH.
Qed.

Lemma deletePods_createdJobs (w : Cluster) (items : list core.Pod) (e : option error) :
  createdJobs (deletePods w items e).2 = [].
Proof.
  revert e. induction items as [|pod rest IH]; intros e; [done|].
  cbn [deletePods]. specialize (IH (match deletePod w (core.PodName pod) with
    | Some err =>
        match e with
        | Some e0 =>
            Some (ErrText (errorfText w
                             (Join [Error e0; Error (ErrWrap "failed to delete pod" err)] "
")))
        | None => Some (ErrWrap "failed to delete pod" err)
        end
    | None => e
    end)).
  destruct (deletePods w rest _) as [e2 l]. exact IH.
Qed.

Lemma cleanup_createdJobs (j : Job) (w : Cluster) (e : option error) :
  createdJobs (cleanup j w e).2 = [].
Proof.
  unfold cleanup. destruct (listPods w (labelSelector j)) as [items|]; [|done].
  pose proof (deletePods_createdJobs w items
                (match deleteJob w (batch.JobName (job j)) with
                 | Some err => Some (ErrWrap "failed to delete job" err)
                 | None => e
                 end)) as H.
  destruct (deletePods w items _) as [e2 l]. exact H.
Qed.

Lemma wait_createdJobs (j : Job) (w : Cluster) (ctx : bool) :
  createdJobs (wait j w ctx).1.2 = [].
Proof.
  unfold wait. destruct (watchPods w (labelSelector j)) as [events|err]; [|done].
  pose proof (watchLoop_ops j w ctx events) as Hl.
  destruct (watchLoop j w ctx events) as [[r l] logs]. cbn in Hl |- *.
  rewrite createdJobs_app, Hl, watchEvents_createdJobs. done.
Qed.

(** [Run] submits the job it holds, once. *)
Lemma Run_createdJobs (j : Job) (w : Cluster) (ctx : bool) :
  createdJobs (Run j w ctx).1.2 = [job j].
Proof.
  unfold Run. destruct (createJob w (job j)); [done|].
  pose proof (wait_createdJobs j w ctx) as Hw.
  destruct (wait j w ctx) as [[r l] logs]. cbn in Hw.
  destruct r as [r| |]; [|cbn; by rewrite Hw..].
  pose proof (cleanup_createdJobs j w
                (match r with Some err => Some (ErrWrap "failed to wait" err) | None => None end))
    as Hc.
  destruct (cleanup j w _) as [e' cl]. cbn in Hc |- *.
  by rewrite omap_app, Hw, Hc.
Qed.

Lemma wrapContainers_spec (j : Job) (containers : list core.Container) :
  (wrapContainers j containers).1 = map (newExecutor j) containers
  ∧ (wrapContainers j containers).2 = map wrapCommand containers.
Proof.
  induction containers as [|c rest [IH1 IH2]]; [done|].
  cbn [wrapContainers]. destruct (wrapContainers j rest) as [es cs].
  cbn in *. by rewrite IH1, IH2.
Qed.

(** C8, as the code has it.  When the round tripper can be built, the
    run submits one job spec.  In it every container of the pod
    template's [Containers] keeps its name and image and has command
    [sh] with arguments [-c] and the script that waits for
    /tmp/kubejob-status and exits with its content, whatever its
    command was; the init containers are those of the job, command and
    all.  The run is [Run] on that spec with a callback that hands the
    handler one executor per container of [Containers], in order, each
    holding the container as it was, its original command and
    arguments, and the live pod. *)
Theorem RunWithExecutionHandler_wraps_commands (j : Job) (w : Cluster)
    (ctx : bool) (handler : JobExecutionHandler) :
  RoundTripperFor_error (config j) = None →
  ∃ submitted callback,
    createdJobs (RunWithExecutionHandler j w ctx handler).1.2 = [submitted]
    ∧ Forall2 (λ c' c, core.Name c' = core.Name c
                       ∧ core.Image c' = core.Image c
                       ∧ core.Command c' = ["sh"]
                       ∧ core.Args c' = ["-c"; "
while [ ! -f /tmp/kubejob-status ]
do
    sleep 1;
done

exit $(cat /tmp/kubejob-status)
"])
        (jobContainers submitted) (jobContainers (job j))
    ∧ core.InitContainers (batch.TemplateSpec (batch.Template submitted))
      = core.InitContainers (batch.TemplateSpec (batch.Template (job j)))
    ∧ RunWithExecutionHandler j w ctx handler
      = (let '(r, l, logs) :=
           Run (mkKubeJob submitted (config j) (disabledInitContainerLog j)
                  (disabledInitCommandLog j) (disabledContainerLog j) true
                  (loggerSet j) (Some callback)) w ctx in
         (wrap "failed to run job" r, l, logs))
    ∧ ∀ p, ∃ received,
        callback p
        = mkCallbackResult
            (ErrWrap "failed to handle executors" <$> callbackError (handler received))
            (callbackCancels (handler received))
        ∧ Forall2 (λ e c, Container e = c
                          ∧ execCommand e = core.Command c
                          ∧ execArgs e = core.Args c
                          ∧ pod e = Some p)
            received (jobContainers (job j)).
Proof.
  intros Hrt. unfold RunWithExecutionHandler, prepareJob. rewrite Hrt.
  destruct (wrapContainers_spec j (jobContainers (job j))) as [He Hc].
  unfold jobContainers in *.
  destruct (wrapContainers j _) as [executors containers]. cbn in He, Hc. subst.
  cbn [snd].
  match goal with |- context [Run ?j' w ctx] =>
    pose proof (Run_createdJobs j' w ctx) as Hr end.
  eexists _, _. split.
  { destruct (Run _ w ctx) as [[r l] logs]. exact Hr. }
  split.
  { cbn. apply Forall2_fmap_l, Forall_Forall2_diag, Forall_forall. by intros c _. }
  split; [done|]. split; [done|].
  intros p.
  exists (map (setPod p) (map (newExecutor j)
            (core.Containers (batch.TemplateSpec (batch.Template (job j)))))).
  split.
  { unfold handlerCallback. by destruct (callbackError _). }
  rewrite <- list_fmap_compose.
  apply Forall2_fmap_l, Forall_Forall2_diag, Forall_forall. by intros c _.
Qed.

(** The loop runs over [Containers] only: the init containers of the
    submitted spec are those of the job. *)
Lemma RunWithExecutionHandler_keeps_init_containers (j : Job) (w : Cluster)
    (ctx : bool) (handler : JobExecutionHandler) :
  ∀ submitted,
    submitted ∈ createdJobs (RunWithExecutionHandler j w ctx handler).1.2 →
    core.InitContainers (batch.TemplateSpec (batch.Template submitted))
    = core.InitContainers (batch.TemplateSpec (batch.Template (job j))).
Proof.
  intros submitted. unfold RunWithExecutionHandler, prepareJob.
  destruct (RoundTripperFor_error (config j)); [by intros ?%elem_of_nil|].
  destruct (wrapContainers j _) as [executors containers].
  match goal with |- context [Run ?j' w ctx] =>
    pose proof (Run_createdJobs j' w ctx) as Hr;
    destruct (Run j' w ctx) as [[r l] logs] end.
  cbn in Hr |- *. rewrite Hr. by intros ->%list_elem_of_singleton.
Qed.

Lemma RunWithExecutionHandler_wraps_commands_witness :
  RoundTripperFor_error (config initJob) = None
  ∧ ∃ submitted callback received,
      createdJobs (RunWithExecutionHandler initJob sampleCluster false idleHandler).1.2
        = [submitted]
      ∧ map core.Command (jobContainers submitted) = [["sh"]; ["sh"]]
      ∧ map core.Command
          (core.InitContainers (batch.TemplateSpec (batch.Template submitted)))
        = [["echo"; "hello"]]
      ∧ callback runningPod = idleHandler received
      ∧ map execCommand received = [["cat"; "missingfile"]; ["nginx"]]
      ∧ map pod received = [Some runningPod; Some runningPod].
Proof.
  split; [reflexivity|].
  destruct (RunWithExecutionHandler_wraps_commands initJob sampleCluster false
              idleHandler eq_refl) as (submitted & callback & Hs & Hc & Hi & _ & Hcb).
  destruct (Hcb runningPod) as (received & Hr & He).
  exists submitted, callback, received. split; [exact Hs|].
  change (jobContainers (job initJob)) with [testContainer; sidecarContainer] in Hc, He.
  apply Forall2_cons_inv_r in Hc as (c1 & l1 & (_ & _ & Hc1 & _) & Hc & ->).
  apply Forall2_cons_inv_r in Hc as (c2 & l2 & (_ & _ & Hc2 & _) & Hc & ->).
  apply Forall2_nil_inv_r in Hc as ->.
  apply Forall2_cons_inv_r in He as (e1 & r1 & (_ & He1 & _ & Hp1) & He & ->).
  apply Forall2_cons_inv_r in He as (e2 & r2 & (_ & He2 & _ & Hp2) & He & ->).
  apply Forall2_nil_inv_r in He as ->.
  cbn. rewrite Hc1, Hc2, Hi, He1, He2, Hp1, Hp2.
  split; [done|]. split; [done|]. split; [|done]. exact Hr.
Defined.

(** C8 as stated fails on a job with an init container: the wrapping
    loop does not reach it, and its own command is part of the job
    spec that is submitted. *)
Lemma RunWithExecutionHandler_init_command_submitted :
  ∃ submitted,
    createdJobs (RunWithExecutionHandler initJob sampleCluster false idleHandler).1.2
      = [submitted]
    ∧ core.InitContainers (batch.TemplateSpec (batch.Template submitted))
      = [core.mkContainer "init" "golang:1.17-stretch" ["echo"; "hello"] []].
Proof. eexists. split; by vm_compute. Qed.

(** With the context done, the [select] of [logStreamContainer] always
    has a ready case. *)
Lemma logStreamContainer_done_returns (s : LogStream) (p : core.Pod)
    (c : core.Container) (a b : bool) :
  isReturned (logStreamContainer true s p c a b).1 = true.
Proof.
  unfold logStreamContainer. destruct (openError s); [done|].
  destruct (head _) as [[err|]|] eqn:Hf; cbn [andb];
    destruct (doneFirst s); cbn [orb]; try done.
Qed.

Lemma wrap_isReturned (stage : string) (o : outcome (option error)) :
  isReturned (wrap stage o) = isReturned o.
Proof. by destruct o as [[?|]| |]. Qed.

Lemma logStreamInitContainers_done_returns (j : Job)
    (open : core.Pod → core.Container → LogStream) (p : core.Pod)
    (containers : list core.Container) :
  isReturned (logStreamInitContainers j true open p containers).1 = true.
Proof.
  induction containers as [|c rest IH]; [done|].
  cbn [logStreamInitContainers].
  pose proof (logStreamContainer_done_returns (open p c) p c
                (enabledInitCommandLog j) (negb (disabledInitContainerLog j))) as Hr.
  destruct (logStreamContainer _ _ _ _ _ _) as [[[err|]| |] logs];
    try done.
  destruct (logStreamInitContainers j true open p rest). exact IH.
Qed.

Lemma egWait_returned (results : list (outcome (option error))) :
  forallb isReturned results = true →
  egWait results = Returned (firstError results).
Proof.
  intros H. unfold egWait. rewrite H.
  assert (existsb isPanicked results = false) as ->; [|done].
  induction results as [|[?| |] rest IH]; cbn in *; try done. by apply IH.
Qed.

Lemma logStreamPod_done_returns (j : Job)
    (open : core.Pod → core.Container → LogStream) (p : core.Pod) :
  isReturned (logStreamPod j true open p).1 = true.
Proof.
  unfold logStreamPod.
  pose proof (logStreamInitContainers_done_returns j open p
                (core.InitContainers (core.Spec p))) as Hi.
  destruct (logStreamInitContainers _ _ _ _ _) as [[[err|]| |] initLogs]; try done.
  cbn [fst]. rewrite wrap_isReturned, egWait_returned; [done|].
  rewrite forallb_forall. intros o Ho. apply in_map_iff in Ho as ([r logs] & <- & Ho).
  unfold logStreamContainers in Ho. apply in_map_iff in Ho as (c & Hc & _).
  pose proof (logStreamContainer_done_returns (open p c) p c
                (enabledCommandLog j) (negb (disabledContainerLog j))) as Hr.
  destruct (logStreamContainer _ _ _ _ _ _) as [r' logs'].
  injection Hc as <- <-. cbn. by rewrite wrap_isReturned.
Qed.

(** When the callback cancels the context and the watch delivers one
    more pod afterwards, the watch goroutine ends with an error, the
    guard has fired and the context is done. *)
Lemma watchEvents_cancel (j : Job) (cb : core.Pod → CallbackResult)
    (events : list core.Pod) (ws : WatchState) :
  podRunningCallback j = Some cb →
  (∀ p, callbackCancels (cb p) = true) →
  onceDone ws = false → ctxDone ws = false → isLivePhase (phase ws) = false →
  deliversAfterRunning events = true →
  ∃ err ws', watchEvents j events ws = (Some err, ws')
             ∧ ctxDone ws' = true
             ∧ is_Some (streamedPod (ops ws')).
Proof.
  intros Hcb Hcancel. revert ws.
  induction events as [|pod rest IH]; intros ws Hd Hc Hq Hev; [done|].
  cbn [watchEvents deliversAfterRunning] in *. rewrite Hc.
  destruct (decide (core.Phase (core.Status pod) = phase ws)) as [Hsame|Hsame].
  { rewrite (bool_decide_eq_true_2 _ Hsame).
    rewrite Hsame, Hq in Hev.
    assert (bool_decide (phase ws = core.PodRunning) = false) as Hnr.
    { unfold isLivePhase in Hq. by destruct (bool_decide (phase ws = core.PodRunning)). }
    rewrite Hnr in Hev. by apply IH. }
  rewrite (bool_decide_eq_false_2 _ Hsame).
  destruct (decide (core.Phase (core.Status pod) = core.PodRunning)) as [Hrun|Hrun].
  - rewrite (bool_decide_eq_true_2 _ Hrun) in Hev |- *.
    unfold onceRunning. rewrite Hd, Hcb.
    assert (∀ l : list Op, is_Some (streamedPod (l ++ [OpLogStreamPod pod]))) as Hs.
    { intros l. induction l as [|[] l IHl]; cbn; eauto. }
    destruct (callbackError (cb pod)) as [cerr|].
    + eexists _, _. split; [done|]. cbn. rewrite Hcancel, orb_true_r.
      split; [done|]. apply Hs.
    + destruct rest as [|pod' rest]; [done|].
      cbn [watchEvents setPhase record ctxDone]. rewrite Hcancel, orb_true_r.
      eexists _, _. split; [done|]. cbn. split; [done|]. apply Hs.
  - rewrite (bool_decide_eq_false_2 _ Hrun) in Hev |- *.
    destruct (isLivePhase (core.Phase (core.Status pod))) eqn:Hlive; [done|].
    unfold isLivePhase in Hlive. rewrite (bool_decide_eq_false_2 _ Hrun) in Hlive.
    cbn [orb] in Hlive. rewrite Hlive.
    apply IH; try done. cbn. unfold isLivePhase.
    by rewrite (bool_decide_eq_false_2 _ Hrun).
Qed.

Lemma deletePods_spec (w : Cluster) (items : list core.Pod) (e : option error) :
  (deletePods w items e).2 = map (λ pod, OpDeletePod (core.PodName pod)) items
  ∧ (is_Some e → is_Some (deletePods w items e).1).
Proof.
  revert e. induction items as [|pod rest IH]; intros e; [done|].
  cbn [deletePods].
  match goal with |- context [deletePods w rest ?e1] =>
    destruct (IH e1) as [IH1 IH2]; destruct (deletePods w rest e1) as [e2 l] eqn:Hd
  end.
  cbn in *. split; [by rewrite IH1|].
  intros [e0 ->]. apply IH2. destruct (deletePod w (core.PodName pod)); eauto.
Qed.

(** The cleanup makes its calls whatever the run returned, and it never
    turns an error into success. *)
Lemma cleanup_spec (j : Job) (w : Cluster) (e : option error) :
  (cleanup j w e).2 = cleanupOps j w
  ∧ (is_Some e → is_Some (cleanup j w e).1).
Proof.
  unfold cleanup, cleanupOps.
  destruct (listPods w (labelSelector j)) as [items|]; cbn [default].
  - match goal with |- context [deletePods w items ?e1] =>
      destruct (deletePods_spec w items e1) as [H1 H2];
      destruct (deletePods w items e1) as [e2 l] end.
    cbn in *. split; [by rewrite H1|].
    intros He. apply H2. destruct (deleteJob w _); eauto.
  - cbn. split; [done|]. intros He. destruct (deleteJob w _); eauto.
Qed.

(** C3, on the code.  If the callback cancels the context and the watch
    delivers one more pod after the Running one, [Run] returns an
    error, not nil; the cleanup still deletes the job and every listed
    pod. *)
Theorem Run_canceled_by_handler_returns_error (j : Job) (w : Cluster)
    (cb : core.Pod → CallbackResult) (events : list core.Pod) :
  podRunningCallback j = Some cb →
  (∀ p, callbackCancels (cb p) = true) →
  createJob w (job j) = None →
  watchPods w (labelSelector j) = inl events →
  deliversAfterRunning events = true →
  ∃ err before logs,
    Run j w false = (Returned (Some err), before ++ cleanupOps j w, logs).
Proof.
  intros Hcb Hcancel Hcreate Hwatch Hev.
  destruct (watchEvents_cancel j cb events (mkWatchState "" false false [])
              Hcb Hcancel eq_refl eq_refl eq_refl Hev)
    as (werr & ws' & Hw & Hctx & [p Hp]).
  assert (∃ err l logs, wait j w false = (Returned (Some err), l, logs))
    as (err & l & logs & Hwait).
  { unfold wait, watchLoop. rewrite Hwatch, Hw, Hp, Hctx.
    pose proof (logStreamPod_done_returns j (openLog w) p) as Hr.
    destruct (logStreamPod j true (openLog w) p) as [[lr| |] plogs]; try done.
    destruct (logFirst w), lr as [lerr|]; cbn; eauto. }
  unfold Run. rewrite Hcreate, Hwait.
  destruct (cleanup_spec j w (Some (ErrWrap "failed to wait" err))) as [Hops Hsome].
  destruct (cleanup j w _) as [e' cl]. cbn in Hops, Hsome.
  destruct Hsome as [err' ->]; [by eauto|]. subst cl.
  exists err', (OpCreate (job j) :: l), logs. done.
Qed.

Lemma Run_canceled_by_handler_returns_error_witness :
  ∃ before logs,
    Run cancelJob sampleCluster false
    = (Returned (Some (ErrWrap "failed to wait"
                         (ErrWrap "failed to watching"
                            (ErrWrap "failed to wait in watchLoop"
                               (ErrWrap "context error" ErrContextCanceled))))),
       before ++ [OpDeleteJob "kubejob-sample";
                  OpListPods "kubejob-label-x=kubejob-label-x";
                  OpDeletePod "kubejob-pod"],
       logs).
Proof.
  destruct (Run_canceled_by_handler_returns_error cancelJob sampleCluster
              (handlerCallback cancelHandler (map (newExecutor sampleJob) [testContainer]))
              [withPhase core.PodPending; withPhase core.PodRunning;
               withPhase core.PodRunning]
              eq_refl (λ _, eq_refl) eq_refl eq_refl eq_refl)
    as (err & before & logs & H).
  exists before, logs. rewrite H. f_equal. f_equal.
  assert ((Run cancelJob sampleCluster false).1.1
          = Returned (Some (ErrWrap "failed to wait"
                         (ErrWrap "failed to watching"
                            (ErrWrap "failed to wait in watchLoop"
                               (ErrWrap "context error" ErrContextCanceled))))))
    as Hv by (vm_compute; reflexivity).
  rewrite H in Hv. cbn in Hv. by rewrite Hv.
Defined.

(** When the deletion of the job fails, the error the run had is
    dropped: the cleanup goes on as if the run had succeeded. *)
Lemma cleanup_delete_job_error_overwrites (j : Job) (w : Cluster)
    (e : option error) (d : error) :
  deleteJob w (batch.JobName (job j)) = Some d →
  cleanup j w e = cleanup j w None.
Proof. intros H. unfold cleanup. by rewrite H. Qed.

(** Whenever [Run] returns after the job was created, its last calls
    are those of the cleanup. *)
Lemma Run_returned_cleanup (j : Job) (w : Cluster) (ctx : bool) :
  createJob w (job j) = None →
  isReturned (Run j w ctx).1.1 = true →
  ∃ before, (Run j w ctx).1.2 = before ++ cleanupOps j w.
Proof.
  intros Hc. unfold Run. rewrite Hc.
  destruct (wait j w ctx) as [[[r| |] l] logs]; cbn; try done.
  intros _.
  destruct (cleanup_spec j w
              (match r with Some err => Some (ErrWrap "failed to wait" err) | None => None end))
    as [Hops _].
  destruct (cleanup j w _) as [e' cl]. cbn in *. subst cl.
  by exists (OpCreate (job j) :: l).
Qed.

(** C4, on the code.  The pod fails, so the run ends with a
    [FailedJob]; the cleanup runs and makes its three calls.  When the
    deletion of the job fails too, [Run] returns the deletion error
    alone: it is no [FailedJob] and its text does not mention the
    failure of the run.  A failing pod deletion, next to it, is joined
    to the text of the run error. *)
Theorem Run_delete_job_error_loses_run_error :
  errorOf (Run sampleJob failingCluster false).1.1
  = Some (ErrWrap "failed to wait"
            (ErrWrap "failed to watching"
               (ErrWrap "failed to wait in watchLoop" (ErrFailedJob failedPod))))
  ∧ errorOf (Run sampleJob deleteFailsCluster false).1.1
    = Some (ErrWrap "failed to delete job" deleteJobError)
  ∧ (∃ before, (Run sampleJob deleteFailsCluster false).1.2
               = before ++ cleanupOps sampleJob deleteFailsCluster)
  ∧ (asFailedJob <$> errorOf (Run sampleJob deleteFailsCluster false).1.1) = Some None
  ∧ (Contains "failed to job" ∘ Error <$> errorOf (Run sampleJob deleteFailsCluster false).1.1)
    = Some false
  ∧ (Error <$> errorOf (Run sampleJob deletePodFailsCluster false).1.1)
    = Some "failed to wait: failed to watching: failed to wait in watchLoop: failed to job
failed to delete pod: pods kubejob-pod not found".
Proof.
  split; [by vm_compute|]. split; [by vm_compute|].
  split; [|by vm_compute].
  apply Run_returned_cleanup; by vm_compute.
Qed.

(** ** Log streaming *)

(** The reader goroutine on lines followed by [io.EOF]: the lines, then
    the finish event, then [nil] on [errchan]. *)
Lemma readerLoop_lines_EOF (p : core.Pod) (c : core.Container) (el : bool)
    (k : nat) (lines : list string) (last : string) (rest : list ReadResult) :
  readerLoop p c el (S k) (map lineRead lines ++ mkRead last ReadEOF :: rest)
  = ((if el then map (lineLog p c) lines else [])
       ++ finishedLog p c :: (readerLoop p c el k rest).1,
     None :: (readerLoop p c el k rest).2).
Proof.
  induction lines as [|l lines IH].
  - cbn. destruct (readerLoop p c el k rest). by destruct el.
  - cbn [map app readerLoop lineRead readErr line]. fold (lineRead l).
    change (mkRead l ReadOk :: map lineRead lines) with (map lineRead (l :: lines)) in *.
    cbn [map] in *. rewrite IH. by destruct el.
Qed.

(** C2, as the code has it.  On a log stream that opens and returns
    lines and then [io.EOF], the events sent for the container are the
    command echo (when enabled), one event per line (when enabled) and
    then a finish event; if no read returns after that [io.EOF], nothing
    follows the finish event; and unless the context is done the call
    returns nil.  On a stream that cannot be opened nothing is sent. *)
Theorem logStreamContainer_finish_event (ctx : bool) (s : LogStream)
    (p : core.Pod) (c : core.Container) (ecl el : bool) :
  (∀ lines last rest,
     openError s = None →
     reads s = map lineRead lines ++ mkRead last ReadEOF :: rest →
     ∃ more,
       (logStreamContainer ctx s p c ecl el).2
       = (if ecl then [commandLog p c] else [])
         ++ (if el then map (lineLog p c) lines else [])
         ++ finishedLog p c :: more
       ∧ (rest = [] → more = [])
       ∧ (ctx = false → (logStreamContainer ctx s p c ecl el).1 = Returned None))
  ∧ (∀ err, openError s = Some err →
            (logStreamContainer ctx s p c ecl el).2 = []).
Proof.
  split.
  - intros lines last rest Ho Hr. unfold logStreamContainer. rewrite Ho, Hr.
    rewrite !readerLoop_lines_EOF. cbn [snd fst head].
    destruct ctx; cbn [andb].
    + destruct (doneFirst s); cbn [orb fst snd].
      * eexists. split; [reflexivity|]. split; [|done].
        intros ->. reflexivity.
      * rewrite bool_decide_eq_false_2 by done. cbn [fst snd].
        eexists. split; [reflexivity|]. split; [|done].
        intros ->. reflexivity.
    + cbn [fst snd]. eexists. split; [reflexivity|].
      split; [|done]. intros ->. reflexivity.
  - intros err Ho. unfold logStreamContainer. by rewrite Ho.
Qed.

Lemma logStreamContainer_finish_event_witness :
  openError endedStream = None
  ∧ (logStreamContainer false endedStream runningPod testContainer true true).2
    = [commandLog runningPod testContainer;
       lineLog runningPod testContainer "hello
";
       finishedLog runningPod testContainer]
  ∧ (logStreamContainer false endedStream runningPod testContainer true true).1
    = Returned None
  ∧ (logStreamContainer false unopenedStream runningPod testContainer true true).2 = [].
Proof.
  split; [reflexivity|].
  destruct (logStreamContainer_finish_event false endedStream runningPod
              testContainer true true) as [H _].
  destruct (H ["hello
"] "" [] eq_refl eq_refl) as (more & Hl & Hm & Hr).
  rewrite Hl, (Hm eq_refl). split; [reflexivity|]. split; [exact (Hr eq_refl)|].
  destruct (logStreamContainer_finish_event false unopenedStream runningPod
              testContainer true true) as [_ H'].
  exact (H' _ eq_refl).
Defined.

(** C2 as stated fails: a stream that cannot be opened, or whose read
    fails, yields no finish event for its container. *)
Lemma logStreamContainer_no_finish_event :
  finishedCount
    (logStreamContainer false unopenedStream runningPod testContainer true true).2 = 0
  ∧ finishedCount
      (logStreamContainer false brokenStream runningPod testContainer true true).2 = 0
  ∧ (logStreamContainer false brokenStream runningPod testContainer true true).1
    = Returned (Some (ErrWrap "failed to log stream" (ErrExternal "unexpected EOF"))).
Proof. by vm_compute. Qed.

(** The reader goroutine does not leave its loop on [io.EOF]: a second
    read that returns [io.EOF] sends a second finish event. *)
Lemma logStreamContainer_second_EOF :
  finishedCount
    (logStreamContainer false twiceEndedStream runningPod testContainer true true).2 = 2.
Proof. by vm_compute. Qed.

(** ** JobBuilder *)

Lemma nameContainers_spec (xid_New : nat → string) (cs : list core.Container) (n : nat) :
  (n ≤ (nameContainers xid_New cs n).2)%nat
  ∧ Forall (λ c, core.Name c ≠ "") (nameContainers xid_New cs n).1
  ∧ Forall2 (λ c' c, core.Image c' = core.Image c
                     ∧ core.Command c' = core.Command c
                     ∧ core.Args c' = core.Args c
                     ∧ (core.Name c ≠ "" → core.Name c' = core.Name c))
      (nameContainers xid_New cs n).1 cs.
Proof.
  revert n. induction cs as [|c rest IH]; intros n.
  { cbn. split; [lia|]. split; constructor. }
  cbn [nameContainers]. case_bool_decide as Hn.
  - cbn [containerName generateName].
    destruct (IH (S n)) as (Hle & Hne & Hf).
    destruct (nameContainers xid_New rest (S n)) as [rest' n2]. cbn in *.
    split; [lia|]. split; constructor; try done.
  - destruct (IH n) as (Hle & Hne & Hf).
    destruct (nameContainers xid_New rest n) as [rest' n2]. cbn in *.
    split; [lia|]. split; constructor; try done.
Qed.

Lemma labelSelectors_insert (m : gmap string string) (k v : string) :
  k +:+ "=" +:+ v ∈ labelSelectors (Some (<[k := v]> m)).
Proof.
  unfold labelSelectors. cbn [default from_option id].
  apply list_elem_of_fmap. exists k. rewrite lookup_insert_eq. split; [done|].
  unfold sortStrings. rewrite merge_sort_Permutation.
  apply elem_of_elements, elem_of_dom. rewrite lookup_insert_eq. eauto.
Qed.

Lemma BuildWithJob_builtFrom (xid_New : nat → string) (b : JobBuilder)
    (jobSpec : batch.Job) (n : nat) :
  NewForConfig_error (builderConfig b) = None →
  ∃ j n', BuildWithJob xid_New b jobSpec n = (inl j, n')
          ∧ builtFrom xid_New jobSpec n j n'.
Proof.
  intros Hc. unfold BuildWithJob. rewrite Hc.
  set (r := if bool_decide (batch.JobName jobSpec = "")
            then jobName xid_New n else (batch.JobName jobSpec, n)).
  assert (n ≤ r.2 ≤ S n)%nat as Hr.
  { unfold r. case_bool_decide; cbn; lia. }
  destruct r as [name n1]. cbn in Hr.
  destruct (nameContainers_spec xid_New
              (core.Containers (batch.TemplateSpec (batch.Template jobSpec))) n1)
    as (Hle & Hne & Hf).
  destruct (nameContainers xid_New _ n1) as [containers n2]. cbn in Hle, Hne, Hf.
  cbn [labelName generateName]. eexists _, _. split; [done|].
  unfold builtFrom, jobContainers, restartPolicy, jobLabels, setLabel. cbn.
  split; [done|]. split; [done|]. split; [done|].
  exists n2. split; [lia|]. split; [done|].
  split; [apply labelSelectors_insert|].
  intros Hinj k' Hk' Heq. apply Hk'.
  apply Hinj. by apply (inj (String.app "kubejob-label-")) in Heq.
Qed.

(** C9, as the code has it.  When the client set can be created, each
    of the three builders returns a job (given an image for [Build], a
    decodable manifest for [BuildWithReader]) and that job is
    [builtFrom] the job spec: named containers, the restart policy of
    the spec or "Never" when it has none, and a label of this build
    among the selectors.  [Build] makes its own spec, so its policy is
    "Never". *)
Theorem JobBuilder_builds (xid_New : nat → string) (b : JobBuilder) (n : nat) :
  NewForConfig_error (builderConfig b) = None →
  (∀ jobSpec,
     ∃ j n', BuildWithJob xid_New b jobSpec n = (inl j, n')
             ∧ builtFrom xid_New jobSpec n j n')
  ∧ (∀ decode r jobSpec,
       decode r = inl jobSpec →
       ∃ j n', BuildWithReader xid_New decode b r n = (inl j, n')
               ∧ builtFrom xid_New jobSpec n j n')
  ∧ (image b ≠ "" →
     ∃ jobSpec j n', Build xid_New b n = (inl j, n')
                     ∧ builtFrom xid_New jobSpec (S (S n)) j n'
                     ∧ restartPolicy (job j) = "Never").
Proof.
  intros Hc. split; [|split].
  - intros jobSpec. by apply BuildWithJob_builtFrom.
  - intros decode r jobSpec Hd. unfold BuildWithReader. rewrite Hd.
    by apply BuildWithJob_builtFrom.
  - intros Hi. unfold Build. rewrite bool_decide_eq_false_2 by done.
    cbn [jobName containerName generateName].
    match goal with |- context [BuildWithJob xid_New b ?js ?m] =>
      destruct (BuildWithJob_builtFrom xid_New b js m Hc) as (j & n' & Hb & Hbf);
      exists js, j, n' end.
    split; [done|]. split; [done|].
    destruct Hbf as (_ & _ & Hp & _). by rewrite Hp.
Qed.

Lemma JobBuilder_builds_witness :
  NewForConfig_error (builderConfig sampleBuilder) = None
  ∧ image sampleBuilder ≠ ""
  ∧ ∃ j n', Build decimalId sampleBuilder 0 = (inl j, n')
            ∧ restartPolicy (job j) = "Never"
            ∧ map core.Name (jobContainers (job j)) = ["kubejob-container-1"]
            ∧ labelSelector j = "kubejob-label-2=kubejob-label-2".
Proof.
  split; [reflexivity|]. split; [discriminate|].
  destruct (JobBuilder_builds decimalId sampleBuilder 0 eq_refl) as (_ & _ & H).
  destruct H as (jobSpec & j & n' & Hb & _ & Hp); [discriminate|].
  exists j, n'. split; [exact Hb|]. split; [exact Hp|].
  vm_compute in Hb. injection Hb as <- <-. by vm_compute.
Defined.

(** C9 as stated fails: a job spec that sets a restart policy keeps it. *)
Lemma BuildWithJob_keeps_restart_policy :
  ∃ j n', BuildWithJob decimalId sampleBuilder restartingJobSpec 0 = (inl j, n')
          ∧ restartPolicy (job j) = "OnFailure"
          ∧ map core.Name (jobContainers (job j)) = ["kubejob-container-0"].
Proof. eexists _, _. split; [by vm_compute|]. by vm_compute. Qed.

(** ** Further properties: FailedJob *)

Lemma addContainers_lookup_notin m cs k :
  k ∉ map core.Name cs → addContainers m cs !! k = m !! k.
Proof.
  revert m. induction cs as [|x cs IH]; intros m Hk; [done|].
  cbn in Hk |- *. apply not_elem_of_cons in Hk as [Hne Hk].
  rewrite IH by done. by rewrite lookup_insert_ne.
Qed.

Lemma addContainers_lookup_NoDup m cs c :
  c ∈ cs → NoDup (map core.Name cs) →
  addContainers m cs !! core.Name c = Some c.
Proof.
  revert m. induction cs as [|x cs IH]; intros m Hc Hnd; [by apply elem_of_nil in Hc|].
  cbn in Hnd |- *. apply NoDup_cons in Hnd as [Hx Hnd].
  apply elem_of_cons in Hc as [->|Hc].
  - rewrite addContainers_lookup_notin by done. apply lookup_insert_eq.
  - by apply IH.
Qed.

(** A failed status whose name no container of the pod spec has yields
    the zero-valued container at its position, not an error and not a
    shorter list. *)
Theorem FailedContainers_unknown_name (j : FailedJob) (i : nat) (name : string) :
  FailedContainerNames j !! i = Some name →
  name ∉ map core.Name (specContainers (Pod j)) →
  FailedContainers j !! i = Some core.zeroContainer
  ∧ length (FailedContainers j) = length (FailedContainerNames j).
Proof.
  intros Hi Hn. unfold FailedContainers. rewrite length_map. split; [|done].
  rewrite list_lookup_fmap, Hi. cbn. f_equal.
  unfold nameToContainerMap, specContainers in *. rewrite map_app in Hn.
  apply not_elem_of_app in Hn as [Hn1 Hn2].
  by rewrite !addContainers_lookup_notin, lookup_empty.
Qed.

Lemma FailedContainers_unknown_name_witness :
  FailedContainers (mkFailedJob strayStatusPod) = [core.zeroContainer].
Proof.
  destruct (FailedContainers_unknown_name (mkFailedJob strayStatusPod) 0 "ghost"
              eq_refl) as [H0 Hl].
  { vm_compute. intros H. apply list_elem_of_singleton in H. discriminate. }
  destruct (FailedContainers (mkFailedJob strayStatusPod)) as [|c [|c' l]];
    try discriminate.
  cbn in H0. by injection H0 as ->.
Defined.

(** The map from names to containers is filled with the init containers
    first: a failed name that a regular container carries resolves to
    the regular container, also when the failed status is that of an
    init container of the same name. *)
Theorem FailedContainers_regular_shadows_init (j : FailedJob) (i : nat)
    (c : core.Container) :
  c ∈ core.Containers (core.Spec (Pod j)) →
  NoDup (map core.Name (core.Containers (core.Spec (Pod j)))) →
  FailedContainerNames j !! i = Some (core.Name c) →
  FailedContainers j !! i = Some c.
Proof.
  intros Hc Hnd Hi. unfold FailedContainers.
  rewrite list_lookup_fmap, Hi. cbn. f_equal.
  unfold nameToContainerMap. by rewrite addContainers_lookup_NoDup.
Qed.

Lemma FailedContainers_regular_shadows_init_witness :
  FailedContainerNames (mkFailedJob sharedNamePod) = ["test"]
  ∧ FailedContainers (mkFailedJob sharedNamePod) !! 0 = Some testContainer.
Proof.
  split; [reflexivity|].
  apply (FailedContainers_regular_shadows_init (mkFailedJob sharedNamePod) 0 testContainer).
  - cbn. apply list_elem_of_singleton. reflexivity.
  - cbn. apply NoDup_singleton.
  - reflexivity.
Defined.

(** ** Further properties: labelSelector *)

Global Instance stringLe_total : Total stringLe.
Proof. intros a b. apply String.leb_total. Qed.

(** The selector has one [key=value] entry per label of the pod
    template, in ascending byte order of the keys, whatever order the
    map is walked in. *)
Theorem labelSelectors_sorted (labels : option (gmap string string)) :
  ∃ pairs,
    pairs ≡ₚ map_to_list (default ∅ labels)
    ∧ Sorted stringLe pairs.*1
    ∧ labelSelectors labels = map selectorOf pairs.
Proof.
  set (m := default ∅ labels).
  exists (map (λ k, (k, default "" (m !! k))) (sortStrings (elements (dom m)))).
  split; [|split].
  - apply NoDup_Permutation.
    + apply (NoDup_fmap_2_strong (λ k, (k, default "" (m !! k)))).
      * by intros x y _ _ [= ->].
      * unfold sortStrings. rewrite merge_sort_Permutation. apply NoDup_elements.
    + apply NoDup_map_to_list.
    + intros [k v]. rewrite elem_of_map_to_list, list_elem_of_fmap.
      unfold sortStrings. setoid_rewrite merge_sort_Permutation.
      setoid_rewrite elem_of_elements. setoid_rewrite elem_of_dom. split.
      * intros (k' & [= -> ->] & [v' Hv]). by rewrite Hv.
      * intros Hv. exists k. rewrite Hv. eauto.
  - rewrite <- list_fmap_compose.
    replace ((fst ∘ λ k, (k, default "" (m !! k))) <$> sortStrings (elements (dom m)))
      with (sortStrings (elements (dom m))).
    + apply Sorted_merge_sort. apply _.
    + induction (sortStrings (elements (dom m))) as [|x l IH]; [done|].
      cbn. by rewrite <- IH.
  - unfold labelSelectors. fold m. rewrite <- list_fmap_compose. done.
Qed.

(** ** Further properties: JobBuilder *)

Lemma nameContainers_counter (xid_New : nat → string)
    (cs : list core.Container) (n : nat) :
  (nameContainers xid_New cs n).2 = n + length (filter isUnnamed cs).
Proof.
  revert n. induction cs as [|x cs IH]; intros n; [cbn; lia|].
  cbn [nameContainers]. rewrite filter_cons.
  destruct (decide (isUnnamed x)) as [Hx|Hx]; unfold isUnnamed in Hx.
  - rewrite (bool_decide_eq_true_2 _ Hx). cbn [containerName generateName].
    specialize (IH (S n)). destruct (nameContainers xid_New cs (S n)).
    cbn in *. lia.
  - rewrite (bool_decide_eq_false_2 _ Hx).
    specialize (IH n). destruct (nameContainers xid_New cs n). cbn in *. lia.
Qed.

Lemma nameContainers_lookup (xid_New : nat → string)
    (cs : list core.Container) (n i : nat) (c : core.Container) :
  cs !! i = Some c →
  (nameContainers xid_New cs n).1 !! i
  = Some (if decide (isUnnamed c)
          then setContainerName c
                 ("kubejob-container-"
                  +:+ xid_New (n + length (filter isUnnamed (take i cs))))
          else c).
Proof.
  intros Hi.
  revert n i Hi. induction cs as [|x cs IH]; intros n i Hi; [done|].
  cbn [nameContainers].
  destruct (decide (isUnnamed x)) as [Hx|Hx].
  - rewrite (bool_decide_eq_true_2 _ Hx). cbn [containerName generateName].
    destruct i as [|i].
    + injection Hi as <-. destruct (nameContainers xid_New cs (S n)).
      cbn. rewrite decide_True by done. by rewrite Nat.add_0_r.
    + cbn in Hi. specialize (IH (S n) i Hi).
      destruct (nameContainers xid_New cs (S n)). cbn in IH |- *.
      rewrite (decide_True _ _ Hx). cbn [length].
      rewrite Nat.add_succ_r. exact IH.
  - rewrite (bool_decide_eq_false_2 _ Hx).
    destruct i as [|i].
    + injection Hi as <-. destruct (nameContainers xid_New cs n).
      cbn. by rewrite decide_False by done.
    + cbn in Hi. specialize (IH n i Hi).
      destruct (nameContainers xid_New cs n). cbn in IH |- *.
      rewrite (decide_False _ _ Hx). exact IH.
Qed.

(** The naming loop leaves a named container as it is and gives the
    unnamed ones the identifiers drawn from [n] on, in container order;
    it draws one identifier per unnamed container. *)
Theorem nameContainers_pointwise (xid_New : nat → string)
    (cs : list core.Container) (n i : nat) (c : core.Container) :
  cs !! i = Some c →
  (nameContainers xid_New cs n).1 !! i
  = Some (if decide (isUnnamed c)
          then setContainerName c
                 ("kubejob-container-"
                  +:+ xid_New (n + length (filter isUnnamed (take i cs))))
          else c)
  ∧ (nameContainers xid_New cs n).2 = n + length (filter isUnnamed cs).
Proof.
  intros Hi. split; [by apply nameContainers_lookup|apply nameContainers_counter].
Qed.

Lemma nameContainers_pointwise_witness :
  map core.Name (nameContainers decimalId unnamedContainers 5).1
  = ["kubejob-container-5"; "main"; "kubejob-container-6"]
  ∧ (nameContainers decimalId unnamedContainers 5).1 !! 2
    = Some (core.mkContainer "kubejob-container-6" "busybox" ["false"] []).
Proof.
  split; [by vm_compute|].
  destruct (nameContainers_pointwise decimalId unnamedContainers 5 2
              (core.mkContainer "" "busybox" ["false"] []) eq_refl) as [H _].
  rewrite H. by vm_compute.
Defined.

(** With identifiers that do not repeat, two containers left unnamed
    get different names. *)
Theorem nameContainers_fresh_names_distinct (xid_New : nat → string)
    (cs : list core.Container) (n i1 i2 : nat) (c1 c2 : core.Container) :
  Inj (=) (=) xid_New →
  (i1 < i2)%nat →
  cs !! i1 = Some c1 → cs !! i2 = Some c2 →
  isUnnamed c1 → isUnnamed c2 →
  ∃ c1' c2',
    (nameContainers xid_New cs n).1 !! i1 = Some c1'
    ∧ (nameContainers xid_New cs n).1 !! i2 = Some c2'
    ∧ core.Name c1' ≠ core.Name c2'.
Proof.
  intros Hinj Hlt H1 H2 Hu1 Hu2.
  pose proof (nameContainers_lookup xid_New cs n i1 c1 H1) as E1.
  pose proof (nameContainers_lookup xid_New cs n i2 c2 H2) as E2.
  rewrite (decide_True _ _ Hu1) in E1. rewrite (decide_True _ _ Hu2) in E2.
  eexists _, _. split; [exact E1|]. split; [exact E2|].
  cbn. intros Heq. apply (inj (String.app "kubejob-container-")) in Heq.
  apply Hinj in Heq.
  assert (take i2 cs !! i1 = Some c1) as Ht.
  { by rewrite lookup_take_lt. }
  apply take_drop_middle in Ht.
  rewrite take_take, Nat.min_l in Ht by lia.
  rewrite <- Ht in Heq. rewrite filter_app, filter_cons, decide_True in Heq by done.
  rewrite length_app in Heq. cbn in Heq. lia.
Qed.

Lemma nameContainers_fresh_names_distinct_witness :
  ∃ c1' c2',
    (nameContainers decimalId unnamedContainers 5).1 !! 0 = Some c1'
    ∧ (nameContainers decimalId unnamedContainers 5).1 !! 2 = Some c2'
    ∧ core.Name c1' ≠ core.Name c2'.
Proof.
  apply (nameContainers_fresh_names_distinct decimalId unnamedContainers 5 0 2
           (core.mkContainer "" "busybox" ["true"] [])
           (core.mkContainer "" "busybox" ["false"] [])).
  - unfold decimalId. apply _.
  - lia.
  - reflexivity.
  - reflexivity.
  - reflexivity.
  - reflexivity.
Defined.

(** The builders fail exactly when they say so: [BuildWithJob] when the
    client set cannot be created, [Build] also when no image was set,
    [BuildWithReader] also when the manifest does not decode. *)
Theorem builders_fail_iff (xid_New : nat → string) (b : JobBuilder) (n : nat) :
  (∀ jobSpec,
     isError (BuildWithJob xid_New b jobSpec n).1
     ↔ NewForConfig_error (builderConfig b) ≠ None)
  ∧ (isError (Build xid_New b n).1
     ↔ image b = "" ∨ NewForConfig_error (builderConfig b) ≠ None)
  ∧ (∀ decode r,
       isError (BuildWithReader xid_New decode b r n).1
       ↔ isError (decode r) ∨ NewForConfig_error (builderConfig b) ≠ None).
Proof.
  assert (∀ jobSpec m,
            isError (BuildWithJob xid_New b jobSpec m).1
            ↔ NewForConfig_error (builderConfig b) ≠ None) as HB.
  { intros jobSpec m.
    destruct (NewForConfig_error (builderConfig b)) as [err|] eqn:Hc.
    - unfold BuildWithJob. rewrite Hc. cbn. split; [done|by intros _].
    - destruct (BuildWithJob_builtFrom xid_New b jobSpec m Hc) as (j & n' & -> & _).
      cbn. split; [done|by intros []]. }
  split; [intros; apply HB|]. split.
  - unfold Build. case_bool_decide as Hi.
    + cbn. split; [by left|done].
    + cbn [jobName containerName generateName]. rewrite HB.
      split; [by right|]. by intros [|].
  - intros decode r. unfold BuildWithReader.
    destruct (decode r) as [jobSpec|err]; cbn.
    + rewrite HB. split; [by right|]. by intros [|].
    + split; [by left|done].
Qed.

(** ** Further properties: the exec transport *)

Lemma selectStreamer_None (p : string) :
  selectStreamer p = None ↔ p ∉ knownProtocols.
Proof.
  unfold selectStreamer, knownProtocols.
  repeat case_bool_decide; subst;
    (split;
     [first [done | intros _; rewrite !not_elem_of_cons;
                    repeat split; first [done | apply not_elem_of_nil]]
     | intros Hn; first [done | exfalso; apply Hn; repeat constructor]]).
Qed.

(** [stream] panics exactly when request and negotiation succeed and
    the server names a protocol outside the five the [switch] knows; no
    protocol an executor offers, and not the empty answer, makes it
    panic. *)
Theorem stream_panics_iff (transport : Transport) (req : ExecRequest)
    (options : StreamOptions) (st : Proc) :
  ((stream transport req options st).1 = Panicked
   ↔ requestError (transport (trace st) req) = None
     ∧ negotiateError (transport (trace st) req) = None
     ∧ protocol (transport (trace st) req) ∉ knownProtocols)
  ∧ (∀ j c p, p ∈ "" :: protocols (newExecutor j c) → is_Some (selectStreamer p)).
Proof.
  split.
  - unfold stream.
    destruct (requestError _); [split; [done|by intros [? _]]|].
    destruct (negotiateError _); [split; [done|by intros (_ & ? & _)]|].
    rewrite <- selectStreamer_None.
    destruct (selectStreamer _); cbn; split; try done. by intros (_ & _ & ?).
  - intros j c p Hp. cbn in Hp.
    destruct (selectStreamer p) eqn:Hs; [by eauto|].
    apply selectStreamer_None in Hs. exfalso. apply Hs.
    unfold knownProtocols.
    repeat (apply elem_of_cons in Hp as [->|Hp]; [repeat constructor|]).
    by apply elem_of_nil in Hp.
Qed.

Lemma copyChunks_trace (cs : list Chunk) (st : Proc) :
  foldl (copyChunk (mkStreamOptions OsStdout OsStderr false)) st cs
  = mkProc (trace st ++ map chunkEvent cs) (buffer st).
Proof.
  revert st. induction cs as [|c cs IH]; intros st.
  { cbn. rewrite app_nil_r. by destruct st. }
  cbn [foldl map]. rewrite IH. destruct c; cbn; by rewrite <- app_assoc.
Qed.

(** When the exec stream is set up, [exec] copies every chunk of the
    remote stdout and stderr to the process's own stdout and stderr, in
    the order of arrival, returns no bytes, and returns the streamer's
    error, if any, wrapped as an exec failure. *)
Theorem exec_streams_to_process_output (transport : Transport) (e : JobExecutor)
    (p : core.Pod) (cmd : list string) (st : Proc) :
  let req := execRequest p e cmd in
  let resp := transport (trace st ++ [EvExec req]) req in
  pod e = Some p →
  requestError resp = None →
  negotiateError resp = None →
  protocol resp ∈ knownProtocols →
  exec transport e cmd st
  = (Returned ("", ErrWrap "faield to exec command" <$> streamError resp),
     mkProc (trace st
             ++ [EvExec req; EvTiming "negotiate time = "]
             ++ map chunkEvent (chunks resp)
             ++ [EvTiming "stream time = "; EvTiming "exec time = "])
            "").
Proof.
  intros req resp Hp Hr Hn Hk. unfold exec. rewrite Hp.
  fold (execRequest p e cmd). fold req. unfold stream.
  cbn [newBuffer emit trace buffer]. fold resp. rewrite Hr, Hn.
  destruct (selectStreamer (protocol resp)) eqn:Hs.
  2:{ apply selectStreamer_None in Hs. done. }
  rewrite copyChunks_trace. unfold emit, bufferBytes. cbn [trace buffer].
  destruct (streamError resp); cbn; rewrite <- !app_assoc; reflexivity.
Qed.

Lemma exec_streams_to_process_output_witness :
  exec chattyTransport testExecutor ["ls"] emptyProc
  = (Returned ("", None),
     mkProc [EvExec (execRequest runningPod testExecutor ["ls"]);
             EvTiming "negotiate time = ";
             EvStdout "one"; EvStderr "two"; EvStdout "three";
             EvTiming "stream time = "; EvTiming "exec time = "] "").
Proof.
  apply (exec_streams_to_process_output chattyTransport testExecutor runningPod
           ["ls"] emptyProc eq_refl eq_refl eq_refl).
  unfold knownProtocols. cbn. repeat constructor.
Defined.

(** When the request cannot be made or the connection cannot be
    upgraded, [exec] returns an error and copies nothing; the upgrade
    error stays reachable behind the wrapping, the request error is
    kept as text only. *)
Theorem exec_transport_failure (transport : Transport) (e : JobExecutor)
    (p : core.Pod) (cmd : list string) (st : Proc) :
  let req := execRequest p e cmd in
  let resp := transport (trace st ++ [EvExec req]) req in
  pod e = Some p →
  (∀ err, requestError resp = Some err →
     exec transport e cmd st
     = (Returned ("", Some (ErrWrap "faield to exec command"
                              (ErrText ("error creating request: " +:+ Error err)))),
        mkProc (trace st ++ [EvExec req; EvTiming "exec time = "]) ""))
  ∧ (∀ err, requestError resp = None → negotiateError resp = Some err →
       exec transport e cmd st
       = (Returned ("", Some (ErrWrap "faield to exec command" err)),
          mkProc (trace st ++ [EvExec req; EvTiming "exec time = "]) "")).
Proof.
  intros req resp Hp. split; intros err.
  - intros Hr. unfold exec. rewrite Hp. fold (execRequest p e cmd). fold req.
    unfold stream. cbn [newBuffer emit trace buffer]. fold resp. rewrite Hr.
    unfold emit, bufferBytes. cbn. by rewrite <- app_assoc.
  - intros Hr Hn. unfold exec. rewrite Hp. fold (execRequest p e cmd). fold req.
    unfold stream. cbn [newBuffer emit trace buffer]. fold resp. rewrite Hr, Hn.
    unfold emit, bufferBytes. cbn. by rewrite <- app_assoc.
Qed.

Lemma exec_transport_failure_witness :
  exec refusingTransport testExecutor ["ls"] emptyProc
  = (Returned ("", Some (ErrWrap "faield to exec command"
                           (ErrExternal "unable to upgrade connection"))),
     mkProc [EvExec (execRequest runningPod testExecutor ["ls"]);
             EvTiming "exec time = "] "").
Proof.
  destruct (exec_transport_failure refusingTransport testExecutor runningPod
              ["ls"] emptyProc eq_refl) as [_ H].
  exact (H _ eq_refl eq_refl).
Defined.

(** ** Further properties: cleanup and Run *)

Lemma string_app_assoc (a b c : string) : (a +:+ b) +:+ c = a +:+ b +:+ c.
Proof.
  induction a as [|x a IH]; [done|].
  change (String x ((a +:+ b) +:+ c) = String x (a +:+ b +:+ c)).
  by rewrite IH.
Qed.

Lemma deleteFailureTexts_cons (w : Cluster) (pod : core.Pod) (rest : list core.Pod) :
  deleteFailureTexts w (pod :: rest)
  = match deletePod w (core.PodName pod) with
    | Some err => ("failed to delete pod: " +:+ Error err) :: deleteFailureTexts w rest
    | None => deleteFailureTexts w rest
    end.
Proof.
  unfold deleteFailureTexts. cbn [omap list_omap].
  by destruct (deletePod w (core.PodName pod)).
Qed.

Lemma percentFree_app (a b : string) :
  percentFree a → percentFree b → percentFree (a +:+ b).
Proof.
  unfold percentFree. intros Ha Hb. induction a as [|x a IH]; [done|].
  change (String x a +:+ b) with (String x (a +:+ b)).
  cbn [Contains HasPrefix] in Ha |- *.
  apply orb_false_iff in Ha as [Hx Ha]. rewrite (IH Ha), orb_false_r.
  assert (∀ s, HasPrefix s "" = true) as Hp by (by intros []).
  rewrite Hp in Hx |- *. exact Hx.
Qed.

(** Whether the loop ends without an error does not depend on any
    text: it does so exactly when it starts without one and no
    deletion fails. *)
Lemma deletePods_None_iff (w : Cluster) (items : list core.Pod) (e : option error) :
  (deletePods w items e).1 = None
  ↔ errorText e ++ deleteFailureTexts w items = [].
Proof.
  revert e. induction items as [|pod rest IH]; intros e.
  { cbn. destruct e; cbn; split; done. }
  cbn [deletePods]. rewrite deleteFailureTexts_cons.
  match goal with |- context [deletePods w rest ?e1] =>
    specialize (IH e1); destruct (deletePods w rest e1) as [e2 l] end.
  cbn [fst] in *. rewrite IH.
  destruct (deletePod w (core.PodName pod)) as [err|]; [|done].
  destruct e as [e0|]; cbn; split; done.
Qed.

Lemma deletePods_text (w : Cluster) (items : list core.Pod) (e : option error) :
  (∀ s, percentFree s → errorfText w s = s) →
  Forall percentFree (errorText e ++ deleteFailureTexts w items) →
  Error <$> (deletePods w items e).1
  = match errorText e ++ deleteFailureTexts w items with
    | [] => None
    | texts => Some (Join texts "
")
    end.
Proof.
  intros Hfmt. revert e. induction items as [|pod rest IH]; intros e Hfree.
  { cbn. destruct e; cbn; by rewrite ?app_nil_r. }
  cbn [deletePods]. rewrite deleteFailureTexts_cons in Hfree |- *.
  destruct (deletePod w (core.PodName pod)) as [err|].
  - destruct e as [e0|]; cbn [errorText app] in Hfree |- *.
    + apply Forall_cons in Hfree as [H0 Hfree].
      apply Forall_cons in Hfree as [H1 Hfree].
      assert (percentFree (Join [Error e0; Error (ErrWrap "failed to delete pod" err)] "
")) as Hj.
      { cbn [Join Error].
        change ("failed to delete pod" +:+ ": " +:+ Error err)
          with ("failed to delete pod: " +:+ Error err).
        apply percentFree_app; [done|]. by apply percentFree_app. }
      rewrite (Hfmt _ Hj).
      match goal with |- context [deletePods w rest ?e1] =>
        specialize (IH e1); destruct (deletePods w rest e1) as [e2 l] end.
      cbn [fst] in *. rewrite IH.
      * cbn [errorText app Error Join].
        change ("failed to delete pod" +:+ ": " +:+ Error err)
          with ("failed to delete pod: " +:+ Error err).
        destruct (deleteFailureTexts w rest); [done|].
        by rewrite !string_app_assoc.
      * cbn [errorText app]. by constructor.
    + match goal with |- context [deletePods w rest ?e1] =>
        specialize (IH e1); destruct (deletePods w rest e1) as [e2 l] end.
      cbn [fst] in *. by rewrite IH.
  - specialize (IH e Hfree). by destruct (deletePods w rest e).
Qed.

Lemma deletePods_no_failure (w : Cluster) (items : list core.Pod) (e : option error) :
  deleteFailureTexts w items = [] → (deletePods w items e).1 = e.
Proof.
  revert e. induction items as [|pod rest IH]; intros e Ht; [done|].
  cbn [deletePods]. rewrite deleteFailureTexts_cons in Ht.
  destruct (deletePod w (core.PodName pod)) as [err|]; [done|].
  specialize (IH e Ht). by destruct (deletePods w rest e).
Qed.

(** The pod deletions that fail are added to the error of the run one
    per line, in the order of the pod list, behind the text of the
    error the run already had, as long as none of these texts holds a
    '%' (the joined text is handed to [xerrors.Errorf] as its format
    string); once a deletion is joined to an earlier error the result
    is plain text, in which [errors.As] finds no [FailedJob]. *)
Theorem deletePods_aggregates (w : Cluster) (items : list core.Pod)
    (e : option error) :
  ((∀ s, percentFree s → errorfText w s = s) →
   Forall percentFree (errorText e ++ deleteFailureTexts w items) →
   Error <$> (deletePods w items e).1
   = match errorText e ++ deleteFailureTexts w items with
     | [] => None
     | texts => Some (Join texts "
")
     end)
  ∧ (deleteFailureTexts w items = [] → (deletePods w items e).1 = e)
  ∧ (is_Some e → deleteFailureTexts w items ≠ [] →
     ∃ msg, (deletePods w items e).1 = Some (ErrText msg)).
Proof.
  split; [apply deletePods_text|]. split.
  - apply deletePods_no_failure.
  - assert (∀ l msg, ∃ msg', (deletePods w l (Some (ErrText msg))).1 = Some (ErrText msg'))
      as Htext.
    { induction l as [|pod rest IH]; intros msg; [by eexists|].
      cbn [deletePods]. destruct (deletePod w (core.PodName pod)) as [err|].
      - match goal with |- context [deletePods w rest (Some (ErrText ?m))] =>
          destruct (IH m) as [msg' Hm]; destruct (deletePods w rest _) end.
        by eexists.
      - destruct (IH msg) as [msg' Hm]. destruct (deletePods w rest _). by eexists. }
    revert e. induction items as [|pod rest IH]; intros e [e0 ->] Ht; [done|].
    cbn [deletePods]. rewrite deleteFailureTexts_cons in Ht.
    destruct (deletePod w (core.PodName pod)) as [err|].
    + match goal with |- context [deletePods w rest (Some (ErrText ?m))] =>
        destruct (Htext rest m) as [msg' Hm]; destruct (deletePods w rest _) end.
      by eexists.
    + destruct (IH (Some e0)) as [msg Hm]; [by eauto|done|].
      destruct (deletePods w rest _). by eexists.
Qed.

Lemma deletePods_aggregates_witness :
  (∀ s, percentFree s → errorfText deletePodFailsCluster s = s)
  ∧ Forall percentFree
      (errorText (Some (ErrFailedJob failedPod))
       ++ deleteFailureTexts deletePodFailsCluster [failedPod; runningPod])
  ∧ Error <$> (deletePods deletePodFailsCluster [failedPod; runningPod]
                 (Some (ErrFailedJob failedPod))).1
    = Some "failed to job
failed to delete pod: pods kubejob-pod not found
failed to delete pod: pods kubejob-pod not found"
  ∧ ∃ msg, (deletePods deletePodFailsCluster [failedPod; runningPod]
              (Some (ErrFailedJob failedPod))).1 = Some (ErrText msg).
Proof.
  destruct (deletePods_aggregates deletePodFailsCluster [failedPod; runningPod]
              (Some (ErrFailedJob failedPod))) as (H1 & _ & H3).
  assert (∀ s, percentFree s → errorfText deletePodFailsCluster s = s) as Hfmt
    by (intros s _; reflexivity).
  assert (Forall percentFree
            (errorText (Some (ErrFailedJob failedPod))
             ++ deleteFailureTexts deletePodFailsCluster [failedPod; runningPod])) as Hfree
    by (repeat constructor).
  split; [exact Hfmt|]. split; [exact Hfree|].
  split; [rewrite (H1 Hfmt Hfree); reflexivity|].
  apply H3; [by eauto|discriminate].
Defined.

Lemma deleteFailureTexts_nil (w : Cluster) (items : list core.Pod) :
  deleteFailureTexts w items = []
  ↔ Forall (λ pod, deletePod w (core.PodName pod) = None) items.
Proof.
  induction items as [|pod rest IH]; [done|].
  rewrite deleteFailureTexts_cons, Forall_cons.
  destruct (deletePod w (core.PodName pod)); [split; [done|by intros [? _]]|].
  rewrite IH. split; [done|by intros [_ ?]].
Qed.

Lemma cleanup_result (j : Job) (w : Cluster) (e : option error) :
  (cleanup j w e).1
  = (deletePods w (default [] (listPods w (labelSelector j)))
       (match deleteJob w (batch.JobName (job j)) with
        | Some err => Some (ErrWrap "failed to delete job" err)
        | None => e
        end)).1.
Proof.
  unfold cleanup. destruct (listPods w (labelSelector j)) as [items|]; [|done].
  cbn [default from_option id]. by destruct (deletePods w items _).
Qed.

(** After the job is created, [Run] returns nil exactly when waiting
    for the pod returned nil, the job was deleted and every listed pod
    was deleted. *)
Theorem Run_returns_nil_iff (j : Job) (w : Cluster) (ctx : bool)
    (r : option error) (l : list Op) (logs : ContainerLogs) :
  createJob w (job j) = None →
  wait j w ctx = (Returned r, l, logs) →
  (Run j w ctx).1.1 = Returned None
  ↔ r = None
    ∧ deleteJob w (batch.JobName (job j)) = None
    ∧ Forall (λ pod, deletePod w (core.PodName pod) = None)
        (default [] (listPods w (labelSelector j))).
Proof.
  intros Hc Hw. unfold Run. rewrite Hc, Hw.
  match goal with |- context [cleanup j w ?e] =>
    pose proof (cleanup_result j w e) as Hr;
    destruct (cleanup j w e) as [e' cl] end.
  cbn [fst snd] in *. subst e'.
  match goal with |- context [deletePods w ?items ?e1] =>
    pose proof (deletePods_None_iff w items e1) as Ht;
    destruct (deletePods w items e1) as [e2 l2] end.
  cbn [fst] in *. rewrite <- deleteFailureTexts_nil.
  assert (Returned e2 = Returned None ↔ e2 = None) as ->
    by (split; [by intros [= ->]|by intros ->]).
  rewrite Ht.
  destruct (deleteJob w (batch.JobName (job j))) as [d|]; cbn [errorText app].
  { split; [done|by intros (_ & ? & _)]. }
  destruct r as [err|]; cbn [errorText app].
  { split; [done|by intros (? & _)]. }
  split; [done|by intros (_ & _ & ?)].
Qed.

Lemma Run_returns_nil_iff_witness :
  (Run sampleJob succeedingCluster false).1.1 = Returned None
  ∧ (Run sampleJob deletePodFailsCluster false).1.1 ≠ Returned None.
Proof.
  split.
  - destruct (wait sampleJob succeedingCluster false) as [[r l] logs] eqn:Hw.
    assert (r = Returned None) as -> by (by vm_compute in Hw; injection Hw as <- _ _).
    apply (Run_returns_nil_iff sampleJob succeedingCluster false None l logs eq_refl Hw).
    split; [done|]. split; [done|]. by repeat constructor.
  - destruct (wait sampleJob deletePodFailsCluster false) as [[r l] logs] eqn:Hw.
    assert (∃ r', r = Returned r') as [r' ->]
      by (vm_compute in Hw; injection Hw as <- _ _; by eexists).
    rewrite (Run_returns_nil_iff sampleJob deletePodFailsCluster false r' l logs eq_refl Hw).
    intros (_ & _ & Hf). cbn in Hf. apply Forall_cons in Hf as [Hf _]. discriminate.
Defined.

(** ** Further properties: the watch goroutine *)

Lemma watchEvents_verdict_from (j : Job) (events : list core.Pod) (ws : WatchState) :
  quietCallback j →
  ctxDone ws = false →
  phase ws ≠ core.PodSucceeded → phase ws ≠ core.PodFailed →
  (watchEvents j events ws).1
  = match firstTerminal events with
    | Some pod =>
        if bool_decide (core.Phase (core.Status pod) = core.PodFailed)
        then Some (ErrFailedJob pod) else None
    | None => None
    end.
Proof.
  intros Hq. revert ws. induction events as [|pod rest IH]; intros ws Hc Hs Hf; [done|].
  cbn [watchEvents firstTerminal]. rewrite Hc.
  destruct (decide (core.Phase (core.Status pod) = phase ws)) as [Hsame|Hsame].
  { rewrite (bool_decide_eq_true_2 _ Hsame).
    rewrite !bool_decide_eq_false_2 by congruence. cbn [orb]. by apply IH. }
  rewrite (bool_decide_eq_false_2 _ Hsame).
  destruct (decide (core.Phase (core.Status pod) = core.PodRunning)) as [Hrun|Hrun].
  { rewrite (bool_decide_eq_true_2 _ Hrun).
    rewrite !(bool_decide_eq_false_2 (core.Phase (core.Status pod) = _))
      by (rewrite Hrun; discriminate).
    cbn [orb]. unfold onceRunning.
    destruct (onceDone ws).
    - apply IH; cbn; [done|rewrite Hrun; discriminate..].
    - destruct (podRunningCallback j) as [cb|] eqn:Hcb.
      + destruct (Hq cb pod Hcb) as [-> Hcancel].
        apply IH; cbn; [by rewrite Hc, Hcancel|rewrite Hrun; discriminate..].
      + apply IH; cbn; [done|rewrite Hrun; discriminate..]. }
  rewrite (bool_decide_eq_false_2 _ Hrun).
  destruct (bool_decide (_ = core.PodSucceeded) || bool_decide (_ = core.PodFailed))
    eqn:Hterm.
  { by destruct (bool_decide (core.Phase (core.Status pod) = core.PodFailed)). }
  apply orb_false_iff in Hterm as [H1 H2].
  apply bool_decide_eq_false in H1, H2. by apply IH.
Qed.

(** While the callback returns nil and nothing cancels the context,
    the watch goroutine is decided by the first pod delivered in phase
    Succeeded or Failed: a Failed pod gives a [FailedJob] carrying that
    very pod, a Succeeded pod gives nil, and so does a watch that ends
    before either; what is delivered afterwards is not read. *)
Theorem watchEvents_verdict (j : Job) (events : list core.Pod) :
  quietCallback j →
  (watchEvents j events (mkWatchState "" false false [])).1
  = match firstTerminal events with
    | Some pod =>
        if bool_decide (core.Phase (core.Status pod) = core.PodFailed)
        then Some (ErrFailedJob pod) else None
    | None => None
    end.
Proof. intros Hq. by apply watchEvents_verdict_from. Qed.

Lemma idleJob_quietCallback : quietCallback idleJob.
Proof. intros cb p [= <-]. done. Qed.

Lemma watchEvents_verdict_witness :
  (watchEvents idleJob
     [withPhase core.PodPending; withPhase core.PodRunning; failedPod;
      withPhase core.PodSucceeded]
     (mkWatchState "" false false [])).1
  = Some (ErrFailedJob failedPod).
Proof.
  rewrite (watchEvents_verdict idleJob _ idleJob_quietCallback). reflexivity.
Defined.

(** With a context that is already done, the first delivered pod ends
    the run with a context error: no callback, no log streaming; the
    cleanup still runs. *)
Theorem Run_context_done_at_start (j : Job) (w : Cluster) (pod : core.Pod)
    (rest : list core.Pod) :
  createJob w (job j) = None →
  watchPods w (labelSelector j) = inl (pod :: rest) →
  ∃ err,
    Run j w true
    = (Returned (Some err),
       [OpCreate (job j); OpWatch (labelSelector j); OpWatchStop] ++ cleanupOps j w,
       [])
    ∧ (deleteJob w (batch.JobName (job j)) = None →
       Forall (λ p, deletePod w (core.PodName p) = None)
         (default [] (listPods w (labelSelector j))) →
       err = waitError (ErrWrap "context error" ErrContextCanceled)).
Proof.
  intros Hc Hw. unfold Run, wait, watchLoop. rewrite Hc, Hw. cbn.
  match goal with |- context [cleanup j w ?e] =>
    destruct (cleanup_spec j w e) as [Hops Hsome];
    pose proof (cleanup_result j w e) as Hr;
    destruct (cleanup j w e) as [e' cl] end.
  cbn [fst snd] in *. subst cl.
  destruct Hsome as [err ->]; [by eauto|].
  exists err. split; [done|]. intros Hd Hf. rewrite Hd in Hr.
  apply deleteFailureTexts_nil in Hf.
  rewrite (deletePods_no_failure _ _ _ Hf) in Hr. by injection Hr.
Qed.

Lemma Run_context_done_at_start_witness :
  (Run sampleJob sampleCluster true).1.1
  = Returned (Some (waitError (ErrWrap "context error" ErrContextCanceled)))
  ∧ callbackCount (Run sampleJob sampleCluster true).1.2 = 0.
Proof.
  destruct (Run_context_done_at_start sampleJob sampleCluster
              (withPhase core.PodPending)
              [withPhase core.PodRunning; withPhase core.PodRunning]
              eq_refl eq_refl) as (err & Hr & He).
  rewrite Hr. cbn [fst snd]. split; [|reflexivity].
  rewrite He; [done|done|]. by repeat constructor.
Defined.

(** ** Further properties: errors of the handler *)

Lemma readerLoop_firstSent (p : core.Pod) (c : core.Container) (el : bool)
    (k : nat) (rs : list ReadResult) :
  head (readerLoop p c el (S k) rs).2 = firstSent rs.
Proof.
  induction rs as [|r rest IH]; [done|].
  cbn [readerLoop firstSent]. destruct (readErr r).
  - destruct (readerLoop p c el (S k) rest). exact IH.
  - by destruct (readerLoop p c el k rest).
  - by destruct (readerLoop p c el k rest).
Qed.

Lemma logStreamContainer_ends_returns (ctx : bool) (s : LogStream) (p : core.Pod)
    (c : core.Container) (a b : bool) :
  streamEnds s → isReturned (logStreamContainer ctx s p c a b).1 = true.
Proof.
  intros Hs. unfold logStreamContainer.
  destruct (openError s) as [err|] eqn:Ho; [done|].
  destruct Hs as [[x Hx]|[v Hv]]; [congruence|].
  rewrite readerLoop_firstSent, Hv.
  destruct (ctx && _); [done|]. by destruct v.
Qed.

Lemma logStreamPod_ends_returns (j : Job) (ctx : bool)
    (open : core.Pod → core.Container → LogStream) (p : core.Pod) :
  (∀ c, streamEnds (open p c)) →
  isReturned (logStreamPod j ctx open p).1 = true.
Proof.
  intros Hs. unfold logStreamPod.
  assert (∀ cs, isReturned (logStreamInitContainers j ctx open p cs).1 = true) as Hi.
  { induction cs as [|c rest IH]; [done|]. cbn [logStreamInitContainers].
    pose proof (logStreamContainer_ends_returns ctx (open p c) p c
                  (enabledInitCommandLog j) (negb (disabledInitContainerLog j)) (Hs c))
      as Hr.
    destruct (logStreamContainer _ _ _ _ _ _) as [[[err|]| |] logs]; try done.
    destruct (logStreamInitContainers j ctx open p rest). exact IH. }
  specialize (Hi (core.InitContainers (core.Spec p))).
  destruct (logStreamInitContainers _ _ _ _ _) as [[[err|]| |] initLogs]; try done.
  cbn [fst]. rewrite wrap_isReturned, egWait_returned; [done|].
  rewrite forallb_forall. intros o Ho. apply in_map_iff in Ho as ([r logs] & <- & Ho).
  unfold logStreamContainers in Ho. apply in_map_iff in Ho as (c & Hc & _).
  pose proof (logStreamContainer_ends_returns ctx (open p c) p c
                (enabledCommandLog j) (negb (disabledContainerLog j)) (Hs c)) as Hr.
  destruct (logStreamContainer _ _ _ _ _ _) as [r' logs'].
  injection Hc as <- <-. cbn. by rewrite wrap_isReturned.
Qed.

Lemma watchEvents_callback_error (j : Job) (cb : core.Pod → CallbackResult)
    (cerr : error) (events : list core.Pod) (ws : WatchState) :
  podRunningCallback j = Some cb →
  (∀ p, callbackError (cb p) = Some cerr) →
  onceDone ws = false → ctxDone ws = false → isLivePhase (phase ws) = false →
  reachesRunning events = true →
  ∃ ws', watchEvents j events ws
         = (Some (ErrWrap "failed to callback for pod running" cerr), ws')
         ∧ is_Some (streamedPod (ops ws')).
Proof.
  intros Hcb Herr. revert ws.
  induction events as [|pod rest IH]; intros ws Hd Hc Hq Hev; [done|].
  cbn [watchEvents reachesRunning] in *. rewrite Hc.
  destruct (decide (core.Phase (core.Status pod) = phase ws)) as [Hsame|Hsame].
  { rewrite (bool_decide_eq_true_2 _ Hsame).
    rewrite Hsame, Hq in Hev.
    assert (bool_decide (phase ws = core.PodRunning) = false) as Hnr.
    { unfold isLivePhase in Hq. by destruct (bool_decide (phase ws = core.PodRunning)). }
    rewrite Hnr in Hev. by apply IH. }
  rewrite (bool_decide_eq_false_2 _ Hsame).
  destruct (decide (core.Phase (core.Status pod) = core.PodRunning)) as [Hrun|Hrun].
  - rewrite (bool_decide_eq_true_2 _ Hrun).
    unfold onceRunning. rewrite Hd, Hcb, Herr.
    eexists. split; [done|]. cbn.
    induction (ops ws ++ [OpCallback pod]) as [|[] l IHl]; cbn; eauto.
  - rewrite (bool_decide_eq_false_2 _ Hrun) in Hev |- *.
    destruct (isLivePhase (core.Phase (core.Status pod))) eqn:Hlive; [done|].
    unfold isLivePhase in Hlive. rewrite (bool_decide_eq_false_2 _ Hrun) in Hlive.
    cbn [orb] in Hlive. rewrite Hlive.
    apply IH; try done. cbn. unfold isLivePhase.
    by rewrite (bool_decide_eq_false_2 _ Hrun).
Qed.

(** An error the handler returns ends the run: when the watch
    goroutine is the first to finish, the log streams end and the
    cleanup succeeds, [RunWithExecutionHandler] returns the handler's
    error behind the stages it went through, so that a [FailedJob] the
    handler got from [Exec] is still found by [errors.As]. *)
Theorem RunWithExecutionHandler_returns_handler_error (j : Job) (w : Cluster)
    (handler : JobExecutionHandler) (herr : error) (events : list core.Pod) :
  RoundTripperFor_error (config j) = None →
  (∀ executors, callbackError (handler executors) = Some herr) →
  (∀ jobSpec, createJob w jobSpec = None) →
  watchPods w (labelSelector j) = inl events →
  reachesRunning events = true →
  logFirst w = false →
  (∀ p c, streamEnds (openLog w p c)) →
  deleteJob w (batch.JobName (job j)) = None →
  Forall (λ p, deletePod w (core.PodName p) = None)
    (default [] (listPods w (labelSelector j))) →
  (RunWithExecutionHandler j w false handler).1.1
  = Returned (Some (ErrWrap "failed to run job"
                      (waitError
                         (ErrWrap "failed to callback for pod running"
                            (ErrWrap "failed to handle executors" herr)))))
  ∧ asFailedJob
      (ErrWrap "failed to run job"
         (waitError
            (ErrWrap "failed to callback for pod running"
               (ErrWrap "failed to handle executors" herr))))
    = asFailedJob herr.
Proof.
  intros Hrt Hh Hcreate Hwatch Hev Hlf Hends Hdj Hdp. split; [|done].
  unfold RunWithExecutionHandler, prepareJob. rewrite Hrt.
  destruct (wrapContainers j _) as [executors containers]. cbn [snd].
  set (j' := mkKubeJob _ _ _ _ _ _ _ _).
  assert (labelSelector j' = labelSelector j) as Hsel by done.
  assert (batch.JobName (job j') = batch.JobName (job j)) as Hname by done.
  destruct (watchEvents_callback_error j' (handlerCallback handler executors)
              (ErrWrap "failed to handle executors" herr) events
              (mkWatchState "" false false []))
    as (ws' & Hw & [p Hp]); try done.
  { intros p. unfold handlerCallback. cbn. by rewrite Hh. }
  assert (∃ l logs,
            wait j' w false
            = (Returned (Some (ErrWrap "failed to watching"
                                 (ErrWrap "failed to wait in watchLoop"
                                    (ErrWrap "failed to callback for pod running"
                                       (ErrWrap "failed to handle executors" herr))))),
               l, logs)) as (l & logs & Hwait).
  { unfold wait, watchLoop. rewrite Hsel, Hwatch, Hw, Hp, Hlf.
    pose proof (logStreamPod_ends_returns j' (ctxDone ws') (openLog w) p (Hends p)) as Hr.
    destruct (logStreamPod j' (ctxDone ws') (openLog w) p) as [[lr| |] plogs]; try done.
    destruct lr; cbn; eauto. }
  unfold Run. rewrite Hcreate, Hwait.
  match goal with |- context [cleanup j' w ?e] =>
    pose proof (cleanup_result j' w e) as Hr;
    destruct (cleanup j' w e) as [e' cl] end.
  cbn [fst snd] in *. rewrite Hname, Hsel, Hdj in Hr.
  apply deleteFailureTexts_nil in Hdp.
  rewrite (deletePods_no_failure _ _ _ Hdp) in Hr. by subst e'.
Qed.

Lemma RunWithExecutionHandler_returns_handler_error_witness :
  asFailedJob
    <$> errorOf (RunWithExecutionHandler sampleJob failingCluster false failingHandler).1.1
  = Some (Some (mkFailedJob runningPod)).
Proof.
  destruct (RunWithExecutionHandler_returns_handler_error sampleJob failingCluster
              failingHandler (ErrFailedJob runningPod)
              [withPhase core.PodPending; withPhase core.PodRunning; failedPod])
    as [Hr Ha].
  - reflexivity.
  - intros executors. reflexivity.
  - intros jobSpec. reflexivity.
  - reflexivity.
  - reflexivity.
  - reflexivity.
  - intros p c. right. by eexists.
  - reflexivity.
  - by repeat constructor.
  - rewrite Hr. reflexivity.
Defined.

(** ** Further properties: log streaming *)

Lemma readerLoop_origin (p : core.Pod) (c : core.Container) (el : bool)
    (k : nat) (rs : list ReadResult) :
  Forall (λ cl, logPod cl = p ∧ logContainer cl = c
                ∧ (el = false → IsFinished cl = true))
    (readerLoop p c el k rs).1.
Proof.
  revert k. induction rs as [|r rest IH]; intros k; [constructor|].
  cbn [readerLoop]. destruct (readErr r).
  - specialize (IH k). destruct (readerLoop p c el k rest) as [logs sent].
    cbn in *. destruct el; [|done]. constructor; [done|done].
  - destruct k as [|k]; [by repeat constructor|].
    specialize (IH k). destruct (readerLoop p c el k rest) as [logs sent].
    cbn in *. by constructor.
  - destruct k as [|k]; [constructor|].
    specialize (IH k). by destruct (readerLoop p c el k rest) as [logs sent].
Qed.

Lemma logStreamContainer_origin (ctx : bool) (s : LogStream) (p : core.Pod)
    (c : core.Container) (ecl el : bool) :
  Forall (λ cl, logPod cl = p ∧ logContainer cl = c
                ∧ (ecl = false → el = false → IsFinished cl = true))
    (logStreamContainer ctx s p c ecl el).2.
Proof.
  assert (∀ k, Forall (λ cl, logPod cl = p ∧ logContainer cl = c
                 ∧ (ecl = false → el = false → IsFinished cl = true))
            ((if ecl then [commandLog p c] else []) ++ (readerLoop p c el k (reads s)).1))
    as H.
  { intros k. apply Forall_app. split.
    - destruct ecl; [|constructor]. by repeat constructor.
    - eapply Forall_impl; [apply readerLoop_origin|]. cbn.
      intros cl (H1 & H2 & H3). split; [done|]. split; [done|].
      intros _ He. by apply H3. }
  unfold logStreamContainer. destruct (openError s); [constructor|].
  destruct (ctx && _); [apply H|].
  destruct (head _) as [[err|]|]; apply H.
Qed.

(** Every event of a pod's log streaming names the pod and the
    container whose stream it was read from, and that container is one
    of the pod spec; with container logs disabled for a kind of
    container, the only events sent for it are finish events. *)
Theorem logStreamPod_events_origin (j : Job) (ctx : bool)
    (open : core.Pod → core.Container → LogStream) (p : core.Pod) :
  Forall (λ entry,
            entry.1 ∈ specContainers p
            ∧ Forall (λ cl, logPod cl = p ∧ logContainer cl = entry.1) entry.2
            ∧ (disabledInitContainerLog j = true →
               disabledContainerLog j = true →
               Forall (λ cl, IsFinished cl = true) entry.2))
    (logStreamPod j ctx open p).2.
Proof.
  assert (∀ cs, cs ⊆ core.InitContainers (core.Spec p) →
            Forall (λ entry,
              entry.1 ∈ specContainers p
              ∧ Forall (λ cl, logPod cl = p ∧ logContainer cl = entry.1) entry.2
              ∧ (disabledInitContainerLog j = true →
                 disabledContainerLog j = true →
                 Forall (λ cl, IsFinished cl = true) entry.2))
              (logStreamInitContainers j ctx open p cs).2) as Hinit.
  { induction cs as [|c rest IH]; intros Hsub; [constructor|].
    cbn [logStreamInitContainers].
    pose proof (logStreamContainer_origin ctx (open p c) p c
                  (enabledInitCommandLog j) (negb (disabledInitContainerLog j))) as Ho.
    assert (c ∈ specContainers p) as Hc.
    { apply elem_of_app. left. apply Hsub. by left. }
    assert (Forall (λ cl, logPod cl = p ∧ logContainer cl = c)
              (logStreamContainer ctx (open p c) p c (enabledInitCommandLog j)
                 (negb (disabledInitContainerLog j))).2
            ∧ (disabledInitContainerLog j = true →
               Forall (λ cl, IsFinished cl = true)
                 (logStreamContainer ctx (open p c) p c (enabledInitCommandLog j)
                    (negb (disabledInitContainerLog j))).2)) as [Ho1 Ho2].
    { split; [eapply Forall_impl; [exact Ho|]; cbn; by intros cl (? & ? & _)|].
      intros Hd. eapply Forall_impl; [exact Ho|]. cbn. intros cl (_ & _ & Hf).
      apply Hf; unfold enabledInitCommandLog; by rewrite Hd. }
    destruct (logStreamContainer _ _ _ _ _ _) as [[[err|]| |] logs]; cbn in *;
      try (constructor; [by eauto|constructor]).
    assert (rest ⊆ core.InitContainers (core.Spec p)) as Hrest.
    { intros x Hx. apply Hsub. by right. }
    specialize (IH Hrest).
    destruct (logStreamInitContainers j ctx open p rest) as [r ls]. cbn in *.
    constructor; [by eauto|done]. }
  assert (∀ cs, cs ⊆ core.Containers (core.Spec p) →
            Forall (λ entry,
              entry.1 ∈ specContainers p
              ∧ Forall (λ cl, logPod cl = p ∧ logContainer cl = entry.1) entry.2
              ∧ (disabledInitContainerLog j = true →
                 disabledContainerLog j = true →
                 Forall (λ cl, IsFinished cl = true) entry.2))
              (zip cs (map snd (logStreamContainers j ctx open p cs)))) as Hreg.
  { induction cs as [|c rest IH]; intros Hsub; [constructor|].
    cbn [logStreamContainers map zip zip_with].
    pose proof (logStreamContainer_origin ctx (open p c) p c
                  (enabledCommandLog j) (negb (disabledContainerLog j))) as Ho.
    destruct (logStreamContainer _ _ _ _ _ _) as [r logs]. cbn in *.
    constructor.
    - cbn. split; [apply elem_of_app; right; apply Hsub; by left|].
      split; [eapply Forall_impl; [exact Ho|]; cbn; by intros cl (? & ? & _)|].
      intros _ Hd. eapply Forall_impl; [exact Ho|]. cbn. intros cl (_ & _ & Hf).
      apply Hf; unfold enabledCommandLog; by rewrite Hd.
    - apply IH. intros x Hx. apply Hsub. by right. }
  unfold logStreamPod.
  specialize (Hinit (core.InitContainers (core.Spec p)) (λ x Hx, Hx)).
  destruct (logStreamInitContainers _ _ _ _ _) as [[[err|]| |] initLogs]; try done.
  cbn [snd] in *. apply Forall_app. split; [done|].
  apply Hreg. by intros x Hx.
Qed.

Lemma logStreamPod_events_origin_witness :
  Forall (λ entry, Forall (λ cl, IsFinished cl = true) entry.2)
    (logStreamPod silencedJob false (λ _ _, endedStream) failedPod).2
  ∧ length (logStreamPod silencedJob false (λ _ _, endedStream) failedPod).2 = 3.
Proof.
  split; [|reflexivity].
  eapply Forall_impl;
    [apply (logStreamPod_events_origin silencedJob false (λ _ _, endedStream) failedPod)|].
  intros entry (_ & _ & H). by apply H.
Defined.

(** When the log stream of an init container cannot be opened, log
    streaming of the pod ends there with that error: the init
    containers before it were tailed, the ones after it and the regular
    containers are not. *)
Theorem logStreamPod_init_failure (j : Job) (ctx : bool)
    (open : core.Pod → core.Container → LogStream) (p : core.Pod)
    (pre post : list core.Container) (c : core.Container) (err : error) :
  core.InitContainers (core.Spec p) = pre ++ c :: post →
  Forall (λ c', (logStreamContainer ctx (open p c') p c'
                   (enabledInitCommandLog j) (negb (disabledInitContainerLog j))).1
                = Returned None) pre →
  openError (open p c) = Some err →
  (logStreamPod j ctx open p).1
  = Returned (Some (ErrWrap "failed to log stream container"
                      (ErrWrap "failed to create log stream" err)))
  ∧ map fst (logStreamPod j ctx open p).2 = pre ++ [c]
  ∧ (logStreamPod j ctx open p).2 !! length pre = Some (c, []).
Proof.
  intros Hinit Hpre Ho. unfold logStreamPod. rewrite Hinit.
  assert ((logStreamInitContainers j ctx open p (pre ++ c :: post)).1
          = Returned (Some (ErrWrap "failed to log stream container"
                              (ErrWrap "failed to create log stream" err)))
          ∧ map fst (logStreamInitContainers j ctx open p (pre ++ c :: post)).2
            = pre ++ [c]
          ∧ (logStreamInitContainers j ctx open p (pre ++ c :: post)).2 !! length pre
            = Some (c, [])) as H.
  { clear Hinit. induction pre as [|x pre IH].
    - cbn [app logStreamInitContainers]. unfold logStreamContainer. rewrite Ho. done.
    - apply Forall_cons in Hpre as [Hx Hpre]. specialize (IH Hpre).
      cbn [app logStreamInitContainers].
      destruct (logStreamContainer ctx (open p x) p x _ _) as [r logs].
      cbn in Hx. subst r.
      destruct (logStreamInitContainers j ctx open p (pre ++ c :: post)) as [r ls].
      cbn in IH. destruct IH as (-> & H2 & H3).
      split; [done|]. split; [cbn; by rewrite H2|exact H3]. }
  destruct (logStreamInitContainers j ctx open p (pre ++ c :: post)) as [r ls].
  cbn in H. destruct H as (-> & H2 & H3). done.
Qed.

Lemma logStreamPod_init_failure_witness :
  (logStreamPod sampleJob false initUnopenedLogs initPod).1
  = Returned (Some (ErrWrap "failed to log stream container"
                      (ErrWrap "failed to create log stream"
                         (ErrExternal "container is waiting to start"))))
  ∧ map fst (logStreamPod sampleJob false initUnopenedLogs initPod).2 = [initContainer].
Proof.
  destruct (logStreamPod_init_failure sampleJob false initUnopenedLogs initPod
              [] [] initContainer (ErrExternal "container is waiting to start")
              eq_refl (Forall_nil_2 _) eq_refl) as (H1 & H2 & _).
  by split.
Defined.

(** ** Further properties: duplicate watch events *)

Lemma watchEvents_cons (j : Job) (pod : core.Pod) (rest : list core.Pod)
    (ws : WatchState) :
  watchEvents j (pod :: rest) ws
  = if ctxDone ws
    then (Some (ErrWrap "context error" ErrContextCanceled), ws)
    else if bool_decide (core.Phase (core.Status pod) = phase ws)
    then watchEvents j rest ws
    else if bool_decide (core.Phase (core.Status pod) = core.PodRunning)
    then
      match onceRunning j pod ws with
      | (Some callbackErr, ws1) =>
          (Some (ErrWrap "failed to callback for pod running" callbackErr), ws1)
      | (None, ws1) =>
          watchEvents j rest (setPhase (core.Phase (core.Status pod)) ws1)
      end
    else if bool_decide (core.Phase (core.Status pod) = core.PodSucceeded)
            || bool_decide (core.Phase (core.Status pod) = core.PodFailed)
    then
      let ws1 := onceTerminal pod ws in
      if bool_decide (core.Phase (core.Status pod) = core.PodFailed)
      then (Some (ErrFailedJob pod), ws1)
      else (None, ws1)
    else watchEvents j rest (setPhase (core.Phase (core.Status pod)) ws).
Proof. reflexivity. Qed.




(** ** Further properties: RunWithExecutionHandler *)

(** Preparing a job for an execution handler switches the job's own
    command echo off, so the polling script is never echoed by the log
    streamer, while each executor keeps the echo settings the job had
    before; name, labels and selector of the job stay as they were, and
    no executor is bound to a pod yet. *)
Theorem prepareJob_settings (j : Job) (handler : JobExecutionHandler) :
  enabledCommandLog (prepareJob j handler).2 = false
  ∧ disabledContainerLog (prepareJob j handler).2 = disabledContainerLog j
  ∧ enabledInitCommandLog (prepareJob j handler).2 = enabledInitCommandLog j
  ∧ labelSelector (prepareJob j handler).2 = labelSelector j
  ∧ batch.JobName (job (prepareJob j handler).2) = batch.JobName (job j)
  ∧ Forall (λ e, pod e = None
                 ∧ execDisabledCommandLog e = disabledCommandLog j
                 ∧ execDisabledContainerLog e = disabledContainerLog j)
      (prepareJob j handler).1.
Proof.
  unfold prepareJob.
  destruct (wrapContainers_spec j
              (core.Containers (batch.TemplateSpec (batch.Template (job j)))))
    as [He _].
  destruct (wrapContainers j _) as [executors containers]. cbn in He. subst.
  cbn. unfold enabledCommandLog. cbn.
  split; [by destruct (disabledContainerLog j)|].
  do 4 (split; [done|]).
  apply Forall_fmap, Forall_forall. by intros c _.
Qed.

(** ** Further properties: the calls of a run *)

Lemma watchEvents_ops_kind (j : Job) (events : list core.Pod) (ws : WatchState) :
  forallb isWatchOp (ops ws) = true →
  forallb isWatchOp (ops (watchEvents j events ws).2) = true.
Proof.
  revert ws. induction events as [|pod rest IH]; intros ws Hk; [done|].
  rewrite watchEvents_cons. destruct (ctxDone ws); [done|].
  case_bool_decide; [by apply IH|].
  case_bool_decide.
  { unfold onceRunning. destruct (onceDone ws); [by apply IH|].
    destruct (podRunningCallback j) as [cb|];
      [destruct (callbackError (cb pod))|];
      try apply IH; unfold record, setPhase; cbn [ops snd];
      rewrite ?forallb_app, Hk; done. }
  destruct (_ || _); [|by apply IH].
  unfold onceTerminal.
  destruct (onceDone ws), (bool_decide (core.Phase (core.Status pod) = core.PodFailed));
    cbn [ops snd]; rewrite ?forallb_app, ?Hk; done.
Qed.

(** The order of the calls of [Run].  A job that cannot be created
    ends the run with nothing else called, so nothing is deleted.  A
    watch that cannot be started is followed by the cleanup.  Otherwise,
    if [Run] returns, it has created the job, started the watch, made
    only callback and log-streaming calls while watching, stopped the
    watch, and then cleaned up. *)
Theorem Run_call_order (j : Job) (w : Cluster) (ctx : bool) :
  (∀ err, createJob w (job j) = Some err →
          Run j w ctx
          = (Returned (Some (ErrWrap "failed to create job" err)), [OpCreate (job j)], []))
  ∧ (∀ err, createJob w (job j) = None →
            watchPods w (labelSelector j) = inr err →
            (Run j w ctx).1.2
            = [OpCreate (job j); OpWatch (labelSelector j)] ++ cleanupOps j w)
  ∧ (∀ events, createJob w (job j) = None →
               watchPods w (labelSelector j) = inl events →
               isReturned (Run j w ctx).1.1 = true →
               ∃ mid, (Run j w ctx).1.2
                      = [OpCreate (job j); OpWatch (labelSelector j)] ++ mid
                        ++ [OpWatchStop] ++ cleanupOps j w
                      ∧ forallb isWatchOp mid = true).
Proof.
  split; [|split].
  - intros err Hc. unfold Run. by rewrite Hc.
  - intros err Hc Hw. unfold Run, wait. rewrite Hc, Hw.
    match goal with |- context [cleanup j w ?e] =>
      destruct (cleanup_spec j w e) as [Hops _]; destruct (cleanup j w e) end.
    cbn in *. by rewrite Hops.
  - intros events Hc Hw. unfold Run, wait. rewrite Hc, Hw.
    pose proof (watchLoop_ops j w ctx events) as Hl.
    pose proof (watchEvents_ops_kind j events (mkWatchState "" false ctx []) eq_refl) as Hk.
    destruct (watchLoop j w ctx events) as [[r l] logs]. cbn [fst snd] in Hl.
    rewrite <- Hl in Hk.
    destruct r as [[err|]| |]; cbn; try done; intros _;
      match goal with |- context [cleanup j w ?e] =>
        destruct (cleanup_spec j w e) as [Hops _]; destruct (cleanup j w e) end;
      cbn in *; exists l; (split; [|done]); by rewrite Hops, <- !app_assoc.
Qed.

Lemma Run_call_order_witness :
  Run sampleJob refusingCluster false
  = (Returned (Some (ErrWrap "failed to create job"
                       (ErrExternal "jobs.batch is forbidden"))),
     [OpCreate (job sampleJob)], [])
  ∧ (Run sampleJob unwatchableCluster false).1.2
    = [OpCreate (job sampleJob); OpWatch (labelSelector sampleJob)]
      ++ cleanupOps sampleJob unwatchableCluster
  ∧ ∃ mid, (Run sampleJob succeedingCluster false).1.2
           = [OpCreate (job sampleJob); OpWatch (labelSelector sampleJob)] ++ mid
             ++ [OpWatchStop] ++ cleanupOps sampleJob succeedingCluster
           ∧ forallb isWatchOp mid = true.
Proof.
  split; [|split].
  - destruct (Run_call_order sampleJob refusingCluster false) as (H & _ & _).
    exact (H _ eq_refl).
  - destruct (Run_call_order sampleJob unwatchableCluster false) as (_ & H & _).
    exact (H _ eq_refl eq_refl).
  - destruct (Run_call_order sampleJob succeedingCluster false) as (_ & _ & H).
    apply (H _ eq_refl eq_refl). by vm_compute.
Defined.

(** ** Further properties: what BuildWithJob draws and keeps *)

(** [BuildWithJob] draws its identifiers in this order: one for the job
    name when the spec has none, then one per unnamed container in
    container order, then one for the label.  So the job name is made
    of the first identifier, the unnamed container at position [i] of
    the one that follows those of the unnamed containers before it, and
    the label of the last one.  A given job name, the named containers
    and the init containers are kept. *)
Theorem BuildWithJob_draws (xid_New : nat → string) (b : JobBuilder)
    (jobSpec : batch.Job) (n : nat) :
  NewForConfig_error (builderConfig b) = None →
  let d := if bool_decide (batch.JobName jobSpec = "") then 1 else 0 in
  let k := length (filter isUnnamed (jobContainers jobSpec)) in
  ∃ j,
    BuildWithJob xid_New b jobSpec n = (inl j, n + d + k + 1)
    ∧ batch.JobName (job j)
      = (if bool_decide (batch.JobName jobSpec = "")
         then "kubejob-" +:+ xid_New n else batch.JobName jobSpec)
    ∧ (∀ i c,
         jobContainers jobSpec !! i = Some c →
         jobContainers (job j) !! i
         = Some (if decide (isUnnamed c)
                 then setContainerName c
                        ("kubejob-container-"
                         +:+ xid_New (n + d + length (filter isUnnamed
                                                        (take i (jobContainers jobSpec)))))
                 else c))
    ∧ jobLabels (job j)
      = <["kubejob-label-" +:+ xid_New (n + d + k)
          := "kubejob-label-" +:+ xid_New (n + d + k)]> (jobLabels jobSpec)
    ∧ core.InitContainers (batch.TemplateSpec (batch.Template (job j)))
      = core.InitContainers (batch.TemplateSpec (batch.Template jobSpec))
    ∧ podRunningCallback j = None.
Proof.
  intros Hc d k. unfold BuildWithJob. rewrite Hc.
  set (r := if bool_decide (batch.JobName jobSpec = "")
            then jobName xid_New n else (batch.JobName jobSpec, n)).
  assert (r = ((if bool_decide (batch.JobName jobSpec = "")
                then "kubejob-" +:+ xid_New n else batch.JobName jobSpec), n + d)) as ->.
  { unfold r, d, jobName, generateName.
    case_bool_decide; f_equal; first [lia | reflexivity]. }
  pose proof (nameContainers_counter xid_New (jobContainers jobSpec) (n + d)) as Hk.
  pose proof (λ i c, nameContainers_lookup xid_New (jobContainers jobSpec) (n + d) i c)
    as Hl.
  unfold jobContainers in Hk, Hl.
  destruct (nameContainers xid_New _ (n + d)) as [containers n2]. cbn [fst snd] in Hk, Hl.
  cbn [labelName generateName]. subst n2. fold (jobContainers jobSpec). fold k.
  eexists. split; [f_equal; lia|]. cbn.
  split; [done|]. split; [exact Hl|]. done.
Qed.

Lemma BuildWithJob_draws_witness :
  ∃ j, BuildWithJob decimalId sampleBuilder anonymousJobSpec 7 = (inl j, 10)
       ∧ batch.JobName (job j) = "kubejob-7"
       ∧ map core.Name (jobContainers (job j)) = ["kubejob-container-8"; "test"]
       ∧ labelSelector j = "kubejob-label-9=kubejob-label-9".
Proof.
  destruct (BuildWithJob_draws decimalId sampleBuilder anonymousJobSpec 7 eq_refl)
    as (j & Hb & Hn & Hcs & Hl & _).
  exists j. split; [exact Hb|]. split; [exact Hn|].
  vm_compute in Hb. injection Hb as <-. by vm_compute.
Defined.

(** ** Further properties: when log streaming returns *)

(** [logStreamContainer] returns exactly when the stream cannot be
    opened, a read ends with [io.EOF] or an error, or the context is
    done; with a live context and an open stream its result is that of
    the first read that is not a line: nil for [io.EOF], the wrapped
    error otherwise, and no return while only lines arrive. *)
Theorem logStreamContainer_returns_iff (ctx : bool) (s : LogStream) (p : core.Pod)
    (c : core.Container) (ecl el : bool) :
  (isReturned (logStreamContainer ctx s p c ecl el).1 = true
   ↔ is_Some (openError s) ∨ is_Some (firstSent (reads s)) ∨ ctx = true)
  ∧ (ctx = false → openError s = None →
     (logStreamContainer ctx s p c ecl el).1
     = match firstSent (reads s) with
       | None => Blocked
       | Some None => Returned None
       | Some (Some err) => Returned (Some (ErrWrap "failed to log stream" err))
       end).
Proof.
  unfold logStreamContainer.
  destruct (openError s) as [oerr|].
  { split; [|done]. split; [by eauto|done]. }
  rewrite readerLoop_firstSent.
  destruct ctx; cbn [andb].
  - split; [|done].
    destruct (firstSent (reads s)) as [[err|]|]; destruct (doneFirst s); cbn;
      split; eauto.
  - split; [|by destruct (firstSent (reads s)) as [[err|]|]].
    destruct (firstSent (reads s)) as [[err|]|]; cbn; split; eauto.
    intros [[? [=]]|[[? [=]]|[=]]].
Qed.

Lemma logStreamContainer_returns_iff_witness :
  (logStreamContainer false (mkLogStream None [lineRead "hello
"] false) runningPod testContainer true true).1 = Blocked
  ∧ (logStreamContainer false brokenStream runningPod testContainer true true).1
    = Returned (Some (ErrWrap "failed to log stream" (ErrExternal "unexpected EOF"))).
Proof.
  split.
  - destruct (logStreamContainer_returns_iff false
                (mkLogStream None [lineRead "hello
"] false) runningPod testContainer true true) as [_ H].
    exact (H eq_refl eq_refl).
  - destruct (logStreamContainer_returns_iff false brokenStream runningPod
                testContainer true true) as [_ H].
    exact (H eq_refl eq_refl).
Defined.
